(** * Relayer: the batch execution engine

    A shallow embedding of package [relayer]: types.go, context.go,
    options.go and the orchestrator ([New], [RegisterRecipe],
    [ExecuteBatch], [executeRequest], [safeExecute]).

    - Wall-clock time is a logical clock in nanoseconds ([Z], like
      [time.Duration]).  A [context.Context] is described by the values it
      carries, its deadline and the instant at which its owner cancels it.
    - A recipe handler is a function of the context, the payload and the
      instant of the call: after some elapsed time it returns, panics, or
      ends its goroutine with [runtime.Goexit()].  The [error] it returns
      is known by what its [Error()] method does, which is to give a text
      or to panic.  Handlers are total and keep no state of their own: one
      that never returns, or whose result depends on the other calls, is
      not modelled.
    - The hooks of middleware.go are the caller's code.  What the engine
      does with them is to call them: the calls, with their arguments, are
      recorded in a trace, in program order, together with the handler
      calls and the channel operations on the semaphore.  A hook returns,
      and no time passes in it: on the clock of a task only its handler
      takes time.
    - The goroutines of a batch are scheduled by an explicit list of
      actions; a goroutine blocked on the semaphore has no enabled action.
      A goroutine that dies of a panic nobody recovers takes the process
      with it: it has no action left, and the batch call does not
      return. *)

From Stdlib Require Import ZArith NArith List String Ascii Bool DecimalString.
From stdpp Require Import base option list strings gmap fin_maps.

Local Open Scope string_scope.
Local Open Scope list_scope.
Local Open Scope Z_scope.

(** * Part I: the program *)

(** ** types.go *)

(** [interface{}] values that are not nil; a nil interface is [None]. *)
Inductive Any : Type :=
| AString (s : string)
| AInt (n : Z).

Definition Duration : Type := Z.
Definition Millisecond : Duration := 1000000.
Definition Second : Duration := 1000000000.

Record SubRequest : Type := mkSubRequest {
  ID : string;
  TenantID : string;
  Recipe : string;
  Payload : option Any
}.

Record Error : Type := mkError {
  Code : string;
  Message : string;
  Details : option (list (string * Any))
}.

Record Response : Type := mkResponse {
  rID : string;
  rStatus : Z;
  rData : option Any;
  rError : option Error;
  rDuration : Duration;
  rTenantID : string
}.

(** The zero value of [Response], as [make([]Response, n)] fills it in. *)
Definition zeroResponse : Response :=
  mkResponse "" 0 None None 0 "".

Definition ErrCodeRecipeNotFound : string := "RECIPE_NOT_FOUND".
Definition ErrCodeTimeout : string := "TIMEOUT".
Definition ErrCodePanic : string := "PANIC".
Definition ErrCodeRecipeExecution : string := "RECIPE_EXECUTION".
Definition ErrCodeInvalidPayload : string := "INVALID_PAYLOAD".
Definition ErrCodeBatchTooLarge : string := "BATCH_TOO_LARGE".
Definition ErrCodeInvalidRequest : string := "INVALID_REQUEST".

Definition FilterSuccess (responses : list Response) : list Response :=
  List.filter (fun resp => (200 <=? rStatus resp) && (rStatus resp <? 300)) responses.

Definition FilterByStatus (responses : list Response) (status : Z) : list Response :=
  List.filter (fun resp => rStatus resp =? status) responses.

Definition FilterByTenant (responses : list Response) (tenantID : string) : list Response :=
  List.filter (fun resp => String.eqb (rTenantID resp) tenantID) responses.

(** ** context.go, and what the engine uses of package [context] *)

(** Context keys.  [contextKey] is an unexported integer type, so its three
    constants can only be equal to each other; every other key, whatever
    its printed name, is a [ForeignKey]. *)
Inductive CtxKey : Type :=
| RelayerKey (k : nat)
| ForeignKey (name : string).

Definition tenantIDKey : CtxKey := RelayerKey 0.
Definition requestIDKey : CtxKey := RelayerKey 1.
Definition recipeNameKey : CtxKey := RelayerKey 2.

Definition CtxKey_eqb (a b : CtxKey) : bool :=
  match a, b with
  | RelayerKey i, RelayerKey j => Nat.eqb i j
  | ForeignKey s, ForeignKey t => String.eqb s t
  | _, _ => false
  end.

Inductive CtxErr : Type := Canceled | DeadlineExceeded.

Record Context : Type := mkContext {
  ctx_values : list (CtxKey * Any);   (* innermost binding first *)
  ctx_deadline : option Z;            (* the instant the deadline fires *)
  ctx_cancel_at : option Z            (* the instant its owner cancels it *)
}.

Definition Background : Context := mkContext [] None None.

Definition WithValue (ctx : Context) (k : CtxKey) (v : Any) : Context :=
  mkContext ((k, v) :: ctx_values ctx) (ctx_deadline ctx) (ctx_cancel_at ctx).

Fixpoint lookupValue (vs : list (CtxKey * Any)) (k : CtxKey) : option Any :=
  match vs with
  | [] => None
  | (k', v) :: rest => if CtxKey_eqb k' k then Some v else lookupValue rest k
  end.

Definition Value (ctx : Context) (k : CtxKey) : option Any :=
  lookupValue (ctx_values ctx) k.

(** [v.(string)] with the comma-ok form. *)
Definition asString (v : option Any) : string * bool :=
  match v with
  | Some (AString s) => (s, true)
  | _ => ("", false)
  end.

Definition WithTenantID (ctx : Context) (tenantID : string) : Context :=
  WithValue ctx tenantIDKey (AString tenantID).
(** [TenantID(ctx)]; the plain name is the field of [SubRequest]. *)
Definition GetTenantID (ctx : Context) : string * bool :=
  asString (Value ctx tenantIDKey).

Definition WithRequestID (ctx : Context) (requestID : string) : Context :=
  WithValue ctx requestIDKey (AString requestID).
Definition RequestID (ctx : Context) : string * bool :=
  asString (Value ctx requestIDKey).

Definition WithRecipeName (ctx : Context) (recipeName : string) : Context :=
  WithValue ctx recipeNameKey (AString recipeName).
Definition RecipeName (ctx : Context) : string * bool :=
  asString (Value ctx recipeNameKey).

(** [context.WithTimeout(parent, timeout)] called at instant [now]: the
    child expires at [now + timeout], or with its parent if that is
    earlier. *)
Definition context_WithTimeout (parent : Context) (now : Z) (timeout : Duration) : Context :=
  let d := now + timeout in
  mkContext (ctx_values parent)
            (Some (match ctx_deadline parent with
                   | Some p => Z.min p d
                   | None => d
                   end))
            (ctx_cancel_at parent).

Definition reached (at_ : option Z) (now : Z) : bool :=
  match at_ with
  | Some t => t <=? now
  | None => false
  end.

(** [ctx.Err()] read at instant [now]: the first cause wins. *)
Definition ctxErr (ctx : Context) (now : Z) : option CtxErr :=
  match reached (ctx_deadline ctx) now, reached (ctx_cancel_at ctx) now with
  | false, false => None
  | true, false => Some DeadlineExceeded
  | false, true => Some Canceled
  | true, true =>
      match ctx_deadline ctx, ctx_cancel_at ctx with
      | Some d, Some c => if c <? d then Some Canceled else Some DeadlineExceeded
      | _, _ => Some DeadlineExceeded
      end
  end.

(** ** Handlers *)

(** An [error] a handler returns, as far as the engine looks at it: the
    text its [Error()] method returns, or the fact that [Error()] itself
    panics (a nil [*Error] stored in an [error], for one). *)
Inductive ErrorValue : Type :=
| errorText (msg : string)
| errorBroken.

(** How one call of a handler ends.  [Panicked r]: [r] is what [recover()]
    yields, which is not nil once a panic is under way.  [Exited]: the
    handler called [runtime.Goexit()]. *)
Inductive Outcome : Type :=
| Returned (data : option Any) (err : option ErrorValue)
| Panicked (r : Any)
| Exited.

Record HandlerRun : Type := mkRun {
  run_outcome : Outcome;
  run_elapsed : N
}.

(** [func(ctx context.Context, payload interface{}) (interface{}, error)];
    the third argument is the instant of the call. *)
Definition Handler : Type := Context -> option Any -> Z -> HandlerRun.

(** ** options.go *)

Record RecipeOption : Type := mkRecipeOption { Timeout : Duration }.

Record Orchestrator : Type := mkOrchestrator {
  registry : gmap string Handler;
  recipeOptions : gmap string RecipeOption;
  timeout : Duration;
  maxConcurrency : Z;
  maxBatchSize : Z
}.

(** A call that may panic with a message. *)
Inductive Fallible (A : Type) : Type :=
| Done (a : A)
| Panic (msg : string).
Arguments Done {A} a.
Arguments Panic {A} msg.

Definition Option : Type := Orchestrator -> Fallible Orchestrator.

Definition WithTimeout (t : Duration) : Option := fun o =>
  if t <=? 0 then Panic "timeout must be positive"
  else Done (mkOrchestrator (registry o) (recipeOptions o) t
                            (maxConcurrency o) (maxBatchSize o)).

Definition WithMaxConcurrency (max : Z) : Option := fun o =>
  if max <? 0 then Panic "max concurrency must be non-negative"
  else Done (mkOrchestrator (registry o) (recipeOptions o) (timeout o)
                            max (maxBatchSize o)).

Definition WithMaxBatchSize (max : Z) : Option := fun o =>
  if max <? 0 then Panic "max batch size must be non-negative"
  else Done (mkOrchestrator (registry o) (recipeOptions o) (timeout o)
                            (maxConcurrency o) max).

(** ** The orchestrator: construction and registration *)

Fixpoint applyOptions (opts : list Option) (o : Orchestrator) : Fallible Orchestrator :=
  match opts with
  | [] => Done o
  | opt :: rest =>
      match opt o with
      | Done o' => applyOptions rest o'
      | Panic msg => Panic msg
      end
  end.

Definition New (opts : list Option) : Fallible Orchestrator :=
  applyOptions opts (mkOrchestrator ∅ ∅ (5 * Second) 0 0).

(** [RegisterRecipe]; a nil handler is [None], and so is a nil option
    pointer. *)
Definition RegisterRecipe (o : Orchestrator) (name : string)
    (handler : option Handler) (opts : list (option RecipeOption)) : Fallible Orchestrator :=
  if String.eqb name "" then Panic "recipe name cannot be empty"
  else match handler with
       | None => Panic "recipe handler cannot be nil"
       | Some h =>
           Done (mkOrchestrator
                   (<[name := h]> (registry o))
                   (match opts with
                    | Some opt :: _ => <[name := opt]> (recipeOptions o)
                    | _ => recipeOptions o
                    end)
                   (timeout o) (maxConcurrency o) (maxBatchSize o))
       end.

Inductive RegisterError : Type :=
| AlreadyRegistered (name : string).

(** Modelled from the spec: [RegisterRecipeStrict] is not among the
    sources, only its tests are.  The spec gives it the validation of
    [RegisterRecipe], and has it return a recoverable "already registered"
    error, without mutating anything, when the name exists; otherwise it
    registers as [RegisterRecipe] does. *)
Definition RegisterRecipeStrict (o : Orchestrator) (name : string)
    (handler : option Handler) (opts : list (option RecipeOption))
    : Fallible (Orchestrator * option RegisterError) :=
  if String.eqb name "" then Panic "recipe name cannot be empty"
  else match handler with
       | None => Panic "recipe handler cannot be nil"
       | Some _ =>
           match registry o !! name with
           | Some _ => Done (o, Some (AlreadyRegistered name))
           | None =>
               match RegisterRecipe o name handler opts with
               | Done o' => Done (o', None)
               | Panic msg => Panic msg
               end
           end
       end.

(** ** One task

    The body of a goroutine runs in a small state monad over the clock and
    the trace of what it did.  It ends normally, or unwinding after
    [runtime.Goexit()], or in a panic that nobody recovers. *)

Inductive Event : Type :=
| EvAcquire                                   (* o.semaphore <- struct{}{} *)
| EvRelease                                   (* <-o.semaphore *)
| EvValidate (ok : bool)                      (* the test of the three fields *)
| EvWithTimeout (timeout : Duration)          (* context.WithTimeout *)
| EvOnStart (ctx : Context) (req : SubRequest)
| EvHandler (ctx : Context) (payload : option Any)
| EvOnPanic (ctx : Context) (req : SubRequest) (recovered : Any)
| EvOnComplete (ctx : Context) (req : SubRequest) (resp : Response) (d : Duration)
| EvStore (resp : Response).                  (* *result = resp *)

(** The state of a task: the clock, and the trace with the instant of
    every entry. *)
Record TaskState : Type := mkTaskState {
  ts_now : Z;
  ts_trace : list (Z * Event)
}.

Inductive Ending (A : Type) : Type :=
| Normal (a : A)
| Goexit
| Crash.
Arguments Normal {A} a.
Arguments Goexit {A}.
Arguments Crash {A}.

Definition Task (A : Type) : Type := TaskState -> Ending A * TaskState.

Definition ret {A} (a : A) : Task A := fun s => (Normal a, s).
Definition bind {A B} (m : Task A) (k : A -> Task B) : Task B :=
  fun s =>
    match m s with
    | (Normal a, s') => k a s'
    | (Goexit, s') => (Goexit, s')
    | (Crash, s') => (Crash, s')
    end.
Definition goexit {A} : Task A := fun s => (Goexit, s).
Definition crash {A} : Task A := fun s => (Crash, s).

Notation "'let*' x ':=' m 'in' k" := (bind m (fun x => k))
  (at level 10, x pattern, m at level 100, k at level 200, only parsing).
Notation "'exec' m 'then' k" := (bind m (fun _ => k))
  (at level 10, m at level 100, k at level 200, only parsing).

Definition timeNow : Task Z := fun s => (Normal (ts_now s), s).
Definition timeSince (start : Z) : Task Duration :=
  fun s => (Normal (ts_now s - start), s).
Definition emit (e : Event) : Task unit :=
  fun s => (Normal tt, mkTaskState (ts_now s) (ts_trace s ++ [(ts_now s, e)])).
Definition elapse (d : N) : Task unit :=
  fun s => (Normal tt, mkTaskState (ts_now s + Z.of_N d) (ts_trace s)).
Definition readErr (ctx : Context) : Task (option CtxErr) :=
  fun s => (Normal (ctxErr ctx (ts_now s)), s).

(** The [error] values [safeExecute] tells apart. *)
Inductive GoError : Type :=
| panicError
| handlerError (e : ErrorValue).

(** [err.Error()]: of a handler's error it may panic, where the engine
    calls it, outside the closure that recovers. *)
Definition Error_ (e : GoError) : Task string :=
  match e with
  | panicError => ret "internal error during recipe execution"
  | handlerError (errorText msg) => ret msg
  | handlerError errorBroken => crash
  end.

(** The closure with the deferred [recover()] around the handler call.
    After [runtime.Goexit()], [recover()] is nil and the goroutine goes on
    unwinding. *)
Definition callRecover (ctx : Context) (req : SubRequest) (handler : Handler)
    : Task (option Any * option GoError) :=
  let* t := timeNow in
  exec emit (EvHandler ctx (Payload req)) then
  let run := handler ctx (Payload req) t in
  exec elapse (run_elapsed run) then
  match run_outcome run with
  | Returned data err => ret (data, handlerError <$> err)
  | Panicked r =>
      exec emit (EvOnPanic ctx req r) then
      ret (None, Some panicError)
  | Exited => goexit
  end.

Definition safeExecute (o : Orchestrator) (ctx : Context) (req : SubRequest) : Task Response :=
  match registry o !! Recipe req with
  | None =>
      ret (mkResponse (ID req) 404 None
             (Some (mkError ErrCodeRecipeNotFound
                            ("recipe '" +:+ Recipe req +:+ "' not found") None))
             0 "")
  | Some handler =>
      let* (data, err) := callRecover ctx req handler in
      let* e := readErr ctx in
      match e with
      | Some DeadlineExceeded =>
          ret (mkResponse (ID req) 504 None
                 (Some (mkError ErrCodeTimeout "recipe execution timed out" None))
                 0 "")
      | _ =>
          match err with
          | Some panicError =>
              let* msg := Error_ panicError in
              ret (mkResponse (ID req) 500 None
                     (Some (mkError ErrCodePanic msg None)) 0 "")
          | Some (handlerError e) =>
              let* msg := Error_ (handlerError e) in
              ret (mkResponse (ID req) 500 None
                     (Some (mkError ErrCodeRecipeExecution msg None)) 0 "")
          | None => ret (mkResponse (ID req) 200 data None 0 "")
          end
      end
  end.

Definition invalid (req : SubRequest) : bool :=
  String.eqb (ID req) "" || String.eqb (TenantID req) "" || String.eqb (Recipe req) "".

(** The timeout of a task: the recipe's own when it is set and positive. *)
Definition resolveTimeout (o : Orchestrator) (req : SubRequest) : Duration :=
  match recipeOptions o !! Recipe req with
  | Some recipeOpt => if 0 <? Timeout recipeOpt then Timeout recipeOpt else timeout o
  | None => timeout o
  end.

(** [executeRequest] from [start := time.Now()] to [*result = resp]; the
    semaphore operations around it belong to the scheduler below.  The
    hooks are taken to return at once: time passes in handlers only. *)
Definition executeRequest (o : Orchestrator) (ctx : Context) (req : SubRequest) : Task Response :=
  let* start := timeNow in
  exec emit (EvValidate (negb (invalid req))) then
  if invalid req then
    let* d := timeSince start in
    let resp :=
      mkResponse (ID req) 400 None
        (Some (mkError ErrCodeInvalidRequest
                       "request must have non-empty ID, TenantID, and Recipe" None))
        d (TenantID req) in
    exec emit (EvStore resp) then
    ret resp
  else
    let taskCtx := WithTenantID ctx (TenantID req) in
    let taskCtx := WithRequestID taskCtx (ID req) in
    let taskCtx := WithRecipeName taskCtx (Recipe req) in
    let timeout := resolveTimeout o req in
    let* t := timeNow in
    exec emit (EvWithTimeout timeout) then
    let taskCtx := context_WithTimeout taskCtx t timeout in
    exec emit (EvOnStart taskCtx req) then
    let* resp := safeExecute o taskCtx req in
    let* d := timeSince start in
    let resp := mkResponse (rID resp) (rStatus resp) (rData resp) (rError resp)
                           d (TenantID req) in
    exec emit (EvOnComplete taskCtx req resp d) then
    exec emit (EvStore resp) then
    ret resp.

(** ** The batch

    Every request of the batch gets a goroutine.  [Spawned]: it has not
    passed the semaphore yet; [Running since]: it passed the semaphore (or
    there is none) at instant [since] and is in the body of
    [executeRequest]; [Finished]: its body is over (it has stored its
    response, unless its handler ended the goroutine before), and it has
    released its slot and called [wg.Done()]. *)

Inductive Phase : Type :=
| Spawned
| Running (since : Z)
| Finished.

Record Runtime : Type := mkRuntime {
  rt_now : Z;                              (* the clock *)
  rt_sem : Z;                              (* len(o.semaphore) *)
  rt_phase : list Phase;
  rt_results : list Response;
  rt_trace : list (nat * (Z * Event))      (* entries carry the index of their task *)
}.

Inductive Action : Type :=
| Tick (d : N)        (* time passes *)
| Start (i : nat)     (* goroutine i gets past the semaphore *)
| Finish (i : nat).   (* goroutine i reaches the end of executeRequest *)

Definition limited (o : Orchestrator) : bool := 0 <? maxConcurrency o.

Definition tag (i : nat) (evs : list (Z * Event)) : list (nat * (Z * Event)) :=
  List.map (fun e => (i, e)) evs.

Definition acquired (o : Orchestrator) (t : Z) : list (Z * Event) :=
  if limited o then [(t, EvAcquire)] else [].

Definition released (o : Orchestrator) (t : Z) : list (Z * Event) :=
  if limited o then [(t, EvRelease)] else [].

(** How the body of goroutine [req], entered at instant [since], ends. *)
Definition ending (o : Orchestrator) (ctx : Context) (req : SubRequest) (since : Z)
    : Ending Response :=
  fst (executeRequest o ctx req (mkTaskState since [])).

(** It ends unwinding after [runtime.Goexit()]. *)
Definition exits (o : Orchestrator) (ctx : Context) (req : SubRequest) (since : Z) : bool :=
  match ending o ctx req since with Goexit => true | _ => false end.

(** It ends in a panic that nobody recovers, which takes the process down. *)
Definition dies (o : Orchestrator) (ctx : Context) (req : SubRequest) (since : Z) : bool :=
  match ending o ctx req since with Crash => true | _ => false end.

(** What is in the result slot of a task when its body is over: the
    response it stored, or still the zero value [make] put there. *)
Definition slot (e : Ending Response) : Response :=
  match e with
  | Normal resp => resp
  | _ => zeroResponse
  end.

(** The body of goroutine [req] entered at instant [since]: its result
    slot and its state when it is over. *)
Definition runTask (o : Orchestrator) (ctx : Context) (req : SubRequest) (since : Z)
    : Response * TaskState :=
  let '(e, ts) := executeRequest o ctx req (mkTaskState since []) in
  (slot e, ts).

(** One scheduling step; [None] when the action is not enabled.  The send
    on the semaphore is enabled exactly when the channel is not full; a
    task finishes no earlier than the instant its body ends, and never if
    its body ends in an unrecovered panic: the process is gone then. *)
Definition step (o : Orchestrator) (ctx : Context) (batch : list SubRequest)
    (s : Runtime) (a : Action) : option Runtime :=
  match a with
  | Tick d =>
      Some (mkRuntime (rt_now s + Z.of_N d) (rt_sem s) (rt_phase s)
                      (rt_results s) (rt_trace s))
  | Start i =>
      match rt_phase s !! i with
      | Some Spawned =>
          if limited o then
            if rt_sem s <? maxConcurrency o then
              Some (mkRuntime (rt_now s) (rt_sem s + 1)
                              (<[i := Running (rt_now s)]> (rt_phase s))
                              (rt_results s)
                              (rt_trace s ++ tag i (acquired o (rt_now s))))
            else None
          else
            Some (mkRuntime (rt_now s) (rt_sem s)
                            (<[i := Running (rt_now s)]> (rt_phase s))
                            (rt_results s) (rt_trace s))
      | _ => None
      end
  | Finish i =>
      match rt_phase s !! i, batch !! i with
      | Some (Running since), Some req =>
          let '(resp, ts) := runTask o ctx req since in
          if dies o ctx req since then None
          else if ts_now ts <=? rt_now s then
            Some (mkRuntime (rt_now s)
                            (if limited o then rt_sem s - 1 else rt_sem s)
                            (<[i := Finished]> (rt_phase s))
                            (<[i := resp]> (rt_results s))
                            (rt_trace s ++ tag i (ts_trace ts ++ released o (ts_now ts))))
          else None
      | _, _ => None
      end
  end.

Fixpoint run (o : Orchestrator) (ctx : Context) (batch : list SubRequest)
    (sched : list Action) (s : Runtime) : option Runtime :=
  match sched with
  | [] => Some s
  | a :: rest =>
      match step o ctx batch s a with
      | Some s' => run o ctx batch rest s'
      | None => None
      end
  end.

Definition isFinished (p : Phase) : bool :=
  match p with Finished => true | _ => false end.

(** The state after the [for] loop that spawns the goroutines. *)
Definition spawnAll (now : Z) (batch : list SubRequest) : Runtime :=
  mkRuntime now 0 (replicate (length batch) Spawned)
            (replicate (length batch) zeroResponse) [].

(** [%d] of [fmt.Sprintf]. *)
Definition itoa (n : Z) : string := NilEmpty.string_of_int (Z.to_int n).

Definition tooLarge (o : Orchestrator) (batch : list SubRequest) : bool :=
  (0 <? maxBatchSize o) && (maxBatchSize o <? Z.of_nat (length batch)).

Definition batchTooLarge (o : Orchestrator) (batch : list SubRequest) (req : SubRequest)
    : Response :=
  mkResponse (ID req) 413 None
    (Some (mkError ErrCodeBatchTooLarge
             ("batch size " +:+ itoa (Z.of_nat (length batch)) +:+
              " exceeds limit of " +:+ itoa (maxBatchSize o)) None))
    0 (TenantID req).

(** [ExecuteBatch] called at instant [now] and scheduled by [sched]: the
    responses and the trace when [wg.Wait()] returns, [None] when [sched]
    is not a schedule that brings every goroutine to its end (none is,
    when a goroutine dies of an unrecovered panic). *)
Definition ExecuteBatch (o : Orchestrator) (ctx : Context) (now : Z)
    (batch : list SubRequest) (sched : list Action)
    : option (list Response * list (nat * (Z * Event))) :=
  if tooLarge o batch then
    Some (List.map (batchTooLarge o batch) batch, [])
  else
    match run o ctx batch sched (spawnAll now batch) with
    | Some s =>
        if forallb isFinished (rt_phase s)
        then Some (rt_results s, rt_trace s)
        else None
    | None => None
    end.

(** The schedule that runs the goroutines one after the other, in the
    order of the batch. *)
Fixpoint inOrder (o : Orchestrator) (ctx : Context) (now : Z) (i : nat)
    (reqs : list SubRequest) : list Action :=
  match reqs with
  | [] => []
  | req :: rest =>
      let done := ts_now (snd (runTask o ctx req now)) in
      Start i :: Tick (Z.to_N (done - now)) :: Finish i
        :: inOrder o ctx done (S i) rest
  end.

(** * Part II: notions used to state the properties *)

(** ** Reading a trace *)

(** The entries of task [i] in a trace. *)
Definition project (i : nat) (tr : list (nat * (Z * Event))) : list (Z * Event) :=
  List.map snd (List.filter (fun e => Nat.eqb (fst e) i) tr).

Definition isOnStart (e : Event) : bool :=
  match e with EvOnStart _ _ => true | _ => false end.
Definition isOnComplete (e : Event) : bool :=
  match e with EvOnComplete _ _ _ _ => true | _ => false end.
Definition isOnPanic (e : Event) : bool :=
  match e with EvOnPanic _ _ _ => true | _ => false end.
Definition isHandler (e : Event) : bool :=
  match e with EvHandler _ _ => true | _ => false end.

Definition isAcquire (e : Event) : bool :=
  match e with EvAcquire => true | _ => false end.
Definition isValidate (e : Event) : bool :=
  match e with EvValidate _ => true | _ => false end.

Definition calls (p : Event -> bool) (tr : list (Z * Event)) : nat :=
  length (List.filter (fun e => p (snd e)) tr).

(** The first [p] entry of a trace comes before its first [q] entry. *)
Fixpoint precedes (p q : Event → bool) (tr : list (Z * Event)) : bool :=
  match tr with
  | [] => false
  | e :: rest =>
      if q (snd e) then false
      else if p (snd e) then existsb (fun e' => q (snd e')) rest
      else precedes p q rest
  end.

(** ** The task in closed form *)

(** The context a task hands to the hooks and to the handler. *)
Definition taskContext (o : Orchestrator) (ctx : Context) (req : SubRequest) (since : Z)
    : Context :=
  context_WithTimeout
    (WithRecipeName (WithRequestID (WithTenantID ctx (TenantID req)) (ID req)) (Recipe req))
    since (resolveTimeout o req).

(** Status, data and error of the response, from how the handler ended and
    from [ctx.Err()] read after it. *)
Definition verdict (out : Outcome) (e : option CtxErr)
    : Ending (Z * option Any * option Error) :=
  match out, e with
  | Exited, _ => Goexit
  | _, Some DeadlineExceeded =>
      Normal (504, None, Some (mkError ErrCodeTimeout "recipe execution timed out" None))
  | Panicked _, _ =>
      Normal (500, None,
              Some (mkError ErrCodePanic "internal error during recipe execution" None))
  | Returned _ (Some (errorText msg)), _ =>
      Normal (500, None, Some (mkError ErrCodeRecipeExecution msg None))
  | Returned _ (Some errorBroken), _ => Crash
  | Returned data None, _ => Normal (200, data, None)
  end.

Definition panicCalls (tctx : Context) (req : SubRequest) (out : Outcome) (t : Z)
    : list (Z * Event) :=
  match out with
  | Panicked r => [(t, EvOnPanic tctx req r)]
  | _ => []
  end.

(** The response a task builds from a verdict. *)
Definition built (req : SubRequest) (v : Z * option Any * option Error) (d : Duration)
    : Response :=
  mkResponse (ID req) (v.1.1) (v.1.2) (v.2) d (TenantID req).

Definition isStore (e : Event) : bool :=
  match e with EvStore _ => true | _ => false end.

Definition invalidResponse (req : SubRequest) : Response :=
  mkResponse (ID req) 400 None
    (Some (mkError ErrCodeInvalidRequest
                   "request must have non-empty ID, TenantID, and Recipe" None))
    0 (TenantID req).

Definition notFoundResponse (req : SubRequest) : Response :=
  mkResponse (ID req) 404 None
    (Some (mkError ErrCodeRecipeNotFound
                   ("recipe '" +:+ Recipe req +:+ "' not found") None))
    0 (TenantID req).

(** What every response of [executeRequest] looks like. *)
Definition wellFormed (req : SubRequest) (resp : Response) : Prop :=
  rID resp = ID req ∧ rTenantID resp = TenantID req ∧
  ((rStatus resp = 200 ∧ rError resp = None) ∨
   (rStatus resp ∈ [400; 404; 500; 504] ∧
    ∃ e, rError resp = Some e ∧
         Code e ∈ [ErrCodeInvalidRequest; ErrCodeRecipeNotFound; ErrCodePanic;
                   ErrCodeRecipeExecution; ErrCodeTimeout])).

(** A response as [ExecuteBatch] hands it out for a request. *)
Definition answers (req : SubRequest) (resp : Response) : Prop :=
  rID resp = ID req ∧ rTenantID resp = TenantID req ∧
  ((rStatus resp = 200 ∧ rError resp = None) ∨
   (rStatus resp ∈ [400; 404; 413; 500; 504] ∧
    ∃ e, rError resp = Some e ∧
         Code e ∈ [ErrCodeInvalidRequest; ErrCodeRecipeNotFound; ErrCodeBatchTooLarge;
                   ErrCodePanic; ErrCodeRecipeExecution; ErrCodeTimeout])).

(** ** The invariant of the scheduler *)

(** Task [i] ran from instant [since] to its end: its slot holds its
    response and its part of the trace is its own. *)
Definition taskDone (o : Orchestrator) (ctx : Context) (now0 : Z)
    (batch : list SubRequest) (s : Runtime) (i : nat) : Prop :=
  ∃ req since,
    batch !! i = Some req ∧ now0 ≤ since ∧
    rt_results s !! i = Some (fst (runTask o ctx req since)) ∧
    project i (rt_trace s) =
      acquired o since ++ ts_trace (snd (runTask o ctx req since))
        ++ released o (ts_now (snd (runTask o ctx req since))) ∧
    dies o ctx req since = false.

Definition taskInv (o : Orchestrator) (ctx : Context) (now0 : Z)
    (batch : list SubRequest) (s : Runtime) (i : nat) : Prop :=
  match rt_phase s !! i with
  | Some Finished => taskDone o ctx now0 batch s i
  | Some (Running since) =>
      now0 ≤ since ∧ project i (rt_trace s) = acquired o since
  | _ => project i (rt_trace s) = []
  end.

Definition Inv (o : Orchestrator) (ctx : Context) (now0 : Z)
    (batch : list SubRequest) (s : Runtime) : Prop :=
  length (rt_phase s) = length batch ∧
  length (rt_results s) = length batch ∧
  now0 ≤ rt_now s ∧
  ∀ i, taskInv o ctx now0 batch s i.

(** ** Orchestrators, handlers and batches for the examples *)

Definition echo : Handler := fun _ payload _ => mkRun (Returned payload None) 0.

Definition demo : Orchestrator :=
  mkOrchestrator {[ "echo" := echo ]} ∅ (5 * Second) 0 0.

Definition demoBatch : list SubRequest :=
  [ mkSubRequest "1" "a" "echo" (Some (AString "hi"));
    mkSubRequest "2" "b" "missing" None ].

(** Twenty requests against a limit of ten. *)
Definition twenty : list SubRequest :=
  List.map (fun n => mkSubRequest (itoa (Z.of_nat n)) "tenant-a" "echo" None) (seq 0 20).

Definition limitTen : Orchestrator :=
  mkOrchestrator {[ "echo" := echo ]} ∅ (5 * Second) 0 10.

Definition missing : SubRequest := mkSubRequest "2" "b" "missing" None.






(** A handler that works for four seconds. *)
Definition fourSeconds : Handler :=
  fun _ _ _ => mkRun (Returned (Some (AString "done")) None) (Z.to_N (4 * Second)).

(** One slot, the default timeout of five seconds. *)
Definition oneSlot : Orchestrator :=
  mkOrchestrator {[ "work" := fourSeconds ]} ∅ (5 * Second) 1 0.

Definition twoJobs : list SubRequest :=
  [ mkSubRequest "1" "tenant-a" "work" None;
    mkSubRequest "2" "tenant-a" "work" None ].

(** A handler that works for one second. *)
Definition slow : Handler :=
  fun _ _ _ => mkRun (Returned (Some (AString "ok")) None) (Z.to_N (1 * Second)).

Definition singleSlot : Orchestrator :=
  mkOrchestrator {[ "slow" := slow ]} ∅ (5 * Second) 1 0.

Definition slowJobs : list SubRequest :=
  [ mkSubRequest "1" "tenant-a" "slow" None;
    mkSubRequest "2" "tenant-b" "slow" None ].

(** A context that its owner cancels 100 ms after the call. *)
Definition cancelledSoon : Context := mkContext [] None (Some (100 * Millisecond)).

Definition ok : Handler := fun _ _ _ => mkRun (Returned (Some (AString "ok")) None) 0.

Definition withTest : Orchestrator :=
  mkOrchestrator {[ "test" := ok ]} ∅ (5 * Second) 0 0.

(** A handler that ends its goroutine: [runtime.Goexit()]. *)
Definition quitter : Handler := fun _ _ _ => mkRun Exited 0.

Definition withQuitter : Orchestrator :=
  mkOrchestrator {[ "quit" := quitter ]} ∅ (5 * Second) 0 0.

Definition quitRequest : SubRequest := mkSubRequest "1" "tenant-a" "quit" None.

(** A handler that returns a nil [*Error] as its [error]. *)
Definition nilError : Handler := fun _ _ _ => mkRun (Returned None (Some errorBroken)) 0.

Definition withNilError : Orchestrator :=
  mkOrchestrator {[ "nil-error" := nilError ]} ∅ (5 * Second) 0 0.

Definition nilErrorRequest : SubRequest := mkSubRequest "1" "tenant-a" "nil-error" None.

(** ** Further notions: contexts *)

(** The context an entry of the trace was called with, if it is a call of
    a hook or of a handler. *)
Definition eventCtx (e : Event) : option Context :=
  match e with
  | EvOnStart c _ => Some c
  | EvHandler c _ => Some c
  | EvOnPanic c _ _ => Some c
  | EvOnComplete c _ _ _ => Some c
  | _ => None
  end.

Definition isForeign (k : CtxKey) : bool :=
  match k with ForeignKey _ => true | RelayerKey _ => false end.

(** ** Further notions: settings *)

(** The arguments of the validated options of options.go, as data. *)
Inductive Setting : Type :=
| SetTimeout (t : Duration)
| SetMaxConcurrency (max : Z)
| SetMaxBatchSize (max : Z).

Definition asOption (s : Setting) : Option :=
  match s with
  | SetTimeout t => WithTimeout t
  | SetMaxConcurrency max => WithMaxConcurrency max
  | SetMaxBatchSize max => WithMaxBatchSize max
  end.

Definition accepted (s : Setting) : bool :=
  match s with
  | SetTimeout t => 0 <? t
  | SetMaxConcurrency max => 0 <=? max
  | SetMaxBatchSize max => 0 <=? max
  end.

Definition complaint (s : Setting) : string :=
  match s with
  | SetTimeout _ => "timeout must be positive"
  | SetMaxConcurrency _ => "max concurrency must be non-negative"
  | SetMaxBatchSize _ => "max batch size must be non-negative"
  end.

Definition timeoutsOf (ss : list Setting) : list Duration :=
  omap (fun s => match s with SetTimeout t => Some t | _ => None end) ss.
Definition concurrenciesOf (ss : list Setting) : list Z :=
  omap (fun s => match s with SetMaxConcurrency n => Some n | _ => None end) ss.
Definition batchSizesOf (ss : list Setting) : list Z :=
  omap (fun s => match s with SetMaxBatchSize n => Some n | _ => None end) ss.

(** ** Further notions: the scheduler *)

Definition isRelease (e : Event) : bool :=
  match e with EvRelease => true | _ => false end.





(** * Part III: properties *)

(** ** The engine at work *)

Example demo_responses :
  fst <$> ExecuteBatch demo Background 0 demoBatch (inOrder demo Background 0 0 demoBatch)
  = Some [ mkResponse "1" 200 (Some (AString "hi")) None 0 "a";
           mkResponse "2" 404 None
             (Some (mkError "RECIPE_NOT_FOUND" "recipe 'missing' not found" None)) 0 "b" ].
Proof. vm_compute. reflexivity. Qed.

Example itoa_20 : itoa 20 = "20".
Proof. reflexivity. Qed.

(** ** One task *)

Ltac task_unfold :=
  unfold runTask, executeRequest, safeExecute, callRecover, Error_, bind, ret, goexit,
    crash, emit, elapse, timeNow, timeSince, readErr in *.


(** The three ways through [executeRequest], in closed form. *)
Lemma executeRequest_invalid o ctx req since :
  invalid req = true →
  executeRequest o ctx req (mkTaskState since []) =
    (Normal (invalidResponse req),
     mkTaskState since [(since, EvValidate false); (since, EvStore (invalidResponse req))]).
Proof.
  intros Hinv. task_unfold. rewrite Hinv. simpl.
  unfold invalidResponse. by rewrite Z.sub_diag.
Qed.

Lemma executeRequest_not_found o ctx req since :
  invalid req = false →
  registry o !! Recipe req = None →
  executeRequest o ctx req (mkTaskState since []) =
    (Normal (notFoundResponse req),
     mkTaskState since
       [(since, EvValidate true);
        (since, EvWithTimeout (resolveTimeout o req));
        (since, EvOnStart (taskContext o ctx req since) req);
        (since, EvOnComplete (taskContext o ctx req since) req (notFoundResponse req) 0);
        (since, EvStore (notFoundResponse req))]).
Proof.
  intros Hinv Hreg. task_unfold. rewrite Hinv, Hreg. simpl.
  unfold notFoundResponse, taskContext. by rewrite Z.sub_diag.
Qed.

Lemma executeRequest_registered o ctx req since (h : Handler) :
  invalid req = false →
  registry o !! Recipe req = Some h →
  let tctx := taskContext o ctx req since in
  let r := h tctx (Payload req) since in
  let done := since + Z.of_N (run_elapsed r) in
  let called := [(since, EvValidate true);
                 (since, EvWithTimeout (resolveTimeout o req));
                 (since, EvOnStart tctx req);
                 (since, EvHandler tctx (Payload req))] in
  executeRequest o ctx req (mkTaskState since []) =
    match verdict (run_outcome r) (ctxErr tctx done) with
    | Normal v =>
        let resp := built req v (done - since) in
        (Normal resp,
         mkTaskState done
           (called ++ panicCalls tctx req (run_outcome r) done
            ++ [(done, EvOnComplete tctx req resp (done - since));
                (done, EvStore resp)]))
    | Goexit => (Goexit, mkTaskState done called)
    | Crash => (Crash, mkTaskState done called)
    end.
Proof.
  intros Hinv Hreg. task_unfold. rewrite Hinv, Hreg. simpl.
  fold (taskContext o ctx req since).
  destruct (run_outcome (h _ _ _)) as [data [[msg|]|]|r|]; simpl; try reflexivity;
    match goal with |- context [ctxErr ?c ?t] => destruct (ctxErr c t) as [[]|] end;
    reflexivity.
Qed.

Lemma runTask_invalid o ctx req since :
  invalid req = true →
  runTask o ctx req since =
    (invalidResponse req,
     mkTaskState since [(since, EvValidate false); (since, EvStore (invalidResponse req))]).
Proof. intros Hinv. unfold runTask. by rewrite executeRequest_invalid. Qed.

Lemma runTask_not_found o ctx req since :
  invalid req = false →
  registry o !! Recipe req = None →
  runTask o ctx req since =
    (notFoundResponse req,
     mkTaskState since
       [(since, EvValidate true);
        (since, EvWithTimeout (resolveTimeout o req));
        (since, EvOnStart (taskContext o ctx req since) req);
        (since, EvOnComplete (taskContext o ctx req since) req (notFoundResponse req) 0);
        (since, EvStore (notFoundResponse req))]).
Proof. intros Hinv Hreg. unfold runTask. by rewrite executeRequest_not_found. Qed.

Lemma runTask_registered o ctx req since (h : Handler) :
  invalid req = false →
  registry o !! Recipe req = Some h →
  let tctx := taskContext o ctx req since in
  let r := h tctx (Payload req) since in
  let done := since + Z.of_N (run_elapsed r) in
  let called := [(since, EvValidate true);
                 (since, EvWithTimeout (resolveTimeout o req));
                 (since, EvOnStart tctx req);
                 (since, EvHandler tctx (Payload req))] in
  runTask o ctx req since =
    match verdict (run_outcome r) (ctxErr tctx done) with
    | Normal v =>
        let resp := built req v (done - since) in
        (resp,
         mkTaskState done
           (called ++ panicCalls tctx req (run_outcome r) done
            ++ [(done, EvOnComplete tctx req resp (done - since));
                (done, EvStore resp)]))
    | _ => (zeroResponse, mkTaskState done called)
    end.
Proof.
  intros Hinv Hreg. unfold runTask. rewrite (executeRequest_registered _ _ _ _ h) by done.
  simpl. by destruct (verdict _ _).
Qed.

(** How a task ends, read off its request and its handler. *)
Lemma ending_invalid o ctx req since :
  invalid req = true → ending o ctx req since = Normal (invalidResponse req).
Proof. intros Hinv. unfold ending. by rewrite executeRequest_invalid. Qed.

Lemma ending_not_found o ctx req since :
  invalid req = false → registry o !! Recipe req = None →
  ending o ctx req since = Normal (notFoundResponse req).
Proof. intros Hinv Hreg. unfold ending. by rewrite executeRequest_not_found. Qed.

Lemma ending_registered o ctx req since (h : Handler) :
  invalid req = false →
  registry o !! Recipe req = Some h →
  let tctx := taskContext o ctx req since in
  let r := h tctx (Payload req) since in
  let done := since + Z.of_N (run_elapsed r) in
  ending o ctx req since =
    match verdict (run_outcome r) (ctxErr tctx done) with
    | Normal v => Normal (built req v (done - since))
    | Goexit => Goexit
    | Crash => Crash
    end.
Proof.
  intros Hinv Hreg. unfold ending. rewrite (executeRequest_registered _ _ _ _ h) by done.
  simpl. by destruct (verdict _ _).
Qed.

Lemma runTask_fst o ctx req since :
  fst (runTask o ctx req since) = slot (ending o ctx req since).
Proof.
  unfold runTask, ending. by destruct (executeRequest _ _ _ _) as [e ts].
Qed.

Lemma verdict_Goexit out e : verdict out e = Goexit ↔ out = Exited.
Proof. destruct out as [data [[msg|]|]|r|], e as [[]|]; simpl; split; congruence. Qed.

Lemma verdict_Crash out e :
  verdict out e = Crash ↔
  ∃ data, out = Returned data (Some errorBroken) ∧ e ≠ Some DeadlineExceeded.
Proof.
  destruct out as [data [[msg|]|]|r|], e as [[]|]; simpl; split;
    first [ discriminate | intros (? & ? & ?); congruence | intros _; by eexists ].
Qed.

(** A task ends by [Goexit] exactly when its request is valid and its
    handler calls it; it dies exactly when its request is valid and its
    handler returns, within the deadline, an error whose [Error()] panics. *)
Lemma exits_iff o ctx req since :
  exits o ctx req since = true ↔
  invalid req = false ∧
  ∃ h : Handler, registry o !! Recipe req = Some h ∧
    run_outcome (h (taskContext o ctx req since) (Payload req) since) = Exited.
Proof.
  unfold exits. destruct (invalid req) eqn:Hinv.
  { rewrite ending_invalid by done. split; [done|]. by intros [? _]. }
  destruct (registry o !! Recipe req) as [h|] eqn:Hreg.
  - rewrite (ending_registered _ _ _ _ h) by done. simpl. split.
    + destruct (verdict _ _) as [v| |] eqn:Hv; try done. intros _. split; [done|].
      exists h. split; [done|]. by apply verdict_Goexit in Hv.
    + intros (_ & h' & [= <-] & Hout).
      by rewrite (proj2 (verdict_Goexit _ _) Hout).
  - rewrite ending_not_found by done. split; [done|]. by intros (_ & h & ? & _).
Qed.

Lemma dies_iff o ctx req since :
  dies o ctx req since = true ↔
  invalid req = false ∧
  ∃ (h : Handler) data, registry o !! Recipe req = Some h ∧
    run_outcome (h (taskContext o ctx req since) (Payload req) since)
      = Returned data (Some errorBroken) ∧
    ctxErr (taskContext o ctx req since)
      (since + Z.of_N (run_elapsed (h (taskContext o ctx req since) (Payload req) since)))
      ≠ Some DeadlineExceeded.
Proof.
  unfold dies. destruct (invalid req) eqn:Hinv.
  { rewrite ending_invalid by done. split; [done|]. by intros [? _]. }
  destruct (registry o !! Recipe req) as [h|] eqn:Hreg.
  - rewrite (ending_registered _ _ _ _ h) by done. simpl. split.
    + destruct (verdict _ _) as [v| |] eqn:Hv; try done. intros _. split; [done|].
      apply verdict_Crash in Hv as (data & Hout & Herr). by exists h, data.
    + intros (_ & h' & data & [= <-] & Hout & Herr).
      rewrite (proj2 (verdict_Crash _ _)); [done|]. by exists data.
  - rewrite ending_not_found by done. split; [done|]. by intros (_ & h & ? & ? & _).
Qed.

(** What is in the slot of a task that is over: the zero value if the
    task did not end normally, and else a response for its request. *)
Lemma runTask_wellFormed o ctx req since :
  (exits o ctx req since || dies o ctx req since = true ∧
   fst (runTask o ctx req since) = zeroResponse) ∨
  (exits o ctx req since = false ∧ dies o ctx req since = false ∧
   wellFormed req (fst (runTask o ctx req since))).
Proof.
  rewrite runTask_fst. unfold exits, dies, wellFormed.
  destruct (invalid req) eqn:Hinv.
  { rewrite ending_invalid by done. right. simpl. split_and!; try done.
    right. split; [set_solver|]. eexists. split; [done|]. set_solver. }
  destruct (registry o !! Recipe req) as [h|] eqn:Hreg.
  - rewrite (ending_registered _ _ _ _ h) by done. simpl.
    destruct (run_outcome _) as [data [[msg|]|]|r|]; simpl;
      try destruct (ctxErr _ _) as [[]|]; simpl;
      first [ left; done
            | right; split_and!; try done;
              first [ left; done
                    | right; split; [set_solver|]; eexists; split; [done|]; set_solver ] ].
  - rewrite ending_not_found by done. right. simpl. split_and!; try done.
    right. split; [set_solver|]. eexists. split; [done|]. set_solver.
Qed.

(** The last thing a task that ends normally does is to store the
    response it leaves in its slot. *)
Lemma runTask_stores o ctx req since :
  exits o ctx req since = false → dies o ctx req since = false →
  ∃ pre, ts_trace (snd (runTask o ctx req since)) =
         pre ++ [(ts_now (snd (runTask o ctx req since)),
                  EvStore (fst (runTask o ctx req since)))].
Proof.
  unfold exits, dies. destruct (invalid req) eqn:Hinv.
  { rewrite runTask_invalid by done. by eexists [_]. }
  destruct (registry o !! Recipe req) as [h|] eqn:Hreg.
  - rewrite (ending_registered _ _ _ _ h), (runTask_registered _ _ _ _ h) by done. simpl.
    destruct (verdict _ _) as [v| |]; try done. intros _ _. simpl.
    eexists (_ :: _ :: _ :: _ :: _ ++ [_]). simpl. by rewrite <- app_assoc.
  - rewrite runTask_not_found by done. by eexists [_; _; _; _].
Qed.

Lemma resolveTimeout_override o req opt :
  recipeOptions o !! Recipe req = Some opt → 0 < Timeout opt →
  resolveTimeout o req = Timeout opt.
Proof.
  intros Hopt Hpos. unfold resolveTimeout. rewrite Hopt.
  by rewrite (proj2 (Z.ltb_lt _ _) Hpos).
Qed.

Lemma resolveTimeout_default o req :
  (∀ opt, recipeOptions o !! Recipe req = Some opt → Timeout opt ≤ 0) →
  resolveTimeout o req = timeout o.
Proof.
  intros Hno. unfold resolveTimeout.
  destruct (recipeOptions o !! Recipe req) as [opt|]; [|done].
  specialize (Hno opt eq_refl).
  by rewrite (proj2 (Z.ltb_ge _ _) Hno).
Qed.

Lemma wellFormed_answers req resp : wellFormed req resp → answers req resp.
Proof.
  intros (Hid & Ht & [H200 | [Hst (e & He & Hc)]]); split_and!; try done; [by left|].
  right. split; [rewrite !elem_of_cons in Hst; rewrite !elem_of_cons; tauto|].
  exists e. split; [done|]. rewrite !elem_of_cons in Hc; rewrite !elem_of_cons; tauto.
Qed.

(** ** Traces and lists *)

Lemma project_app i tr1 tr2 :
  project i (tr1 ++ tr2) = project i tr1 ++ project i tr2.
Proof. unfold project. by rewrite List.filter_app, List.map_app. Qed.

Lemma project_tag_same i evs : project i (tag i evs) = evs.
Proof.
  unfold project, tag. induction evs as [|e evs IH]; simpl; [done|].
  rewrite Nat.eqb_refl. simpl. by rewrite IH.
Qed.

Lemma project_tag_other i j evs : i ≠ j → project j (tag i evs) = [].
Proof.
  intros Hne. unfold project, tag. induction evs as [|e evs IH]; simpl; [done|].
  destruct (Nat.eqb_spec i j); [done|]. exact IH.
Qed.

Lemma calls_app p tr1 tr2 : calls p (tr1 ++ tr2) = (calls p tr1 + calls p tr2)%nat.
Proof. unfold calls. by rewrite List.filter_app, length_app. Qed.

Lemma lookup_map {A B} (f : A → B) (l : list A) (i : nat) :
  List.map f l !! i = f <$> (l !! i).
Proof.
  revert i. induction l as [|x l IH]; intros [|i]; simpl; auto.
Qed.


(** ** The scheduler *)

Section Scheduling.

Variable o : Orchestrator.
Variable ctx : Context.
Variable now0 : Z.
Variable batch : list SubRequest.

Lemma Inv_spawnAll : Inv o ctx now0 batch (spawnAll now0 batch).
Proof.
  unfold Inv, spawnAll, taskInv; simpl.
  rewrite !length_replicate. split_and!; try done; try lia.
  intros i. destruct (replicate (length batch) Spawned !! i) as [p|] eqn:E; [|done].
  apply lookup_replicate in E as [-> _]. done.
Qed.

Lemma Inv_step s a s' : Inv o ctx now0 batch s → step o ctx batch s a = Some s' → Inv o ctx now0 batch s'.
Proof.
  intros (Hp & Hr & Hn & Ht) Hstep. destruct a as [d|i|i]; simpl in Hstep.
  - (* Tick *)
    inversion Hstep; subst; clear Hstep. unfold Inv, taskInv, taskDone in *; simpl.
    split_and!; try done; lia.
  - (* Start *)
    destruct (rt_phase s !! i) as [[| |]|] eqn:Ei; try done.
    assert (Hi : (i < length (rt_phase s))%nat) by (eapply lookup_lt_Some; eauto).
    pose proof (Ht i) as Hti. unfold taskInv in Hti. rewrite Ei in Hti.
    assert (Hgoal : ∀ trace' sem',
      project i trace' = acquired o (rt_now s) →
      (∀ j, i ≠ j → project j trace' = project j (rt_trace s)) →
      Inv o ctx now0 batch (mkRuntime (rt_now s) sem' (<[i := Running (rt_now s)]> (rt_phase s))
                     (rt_results s) trace')).
    { intros trace' sem' Hsame Hother. unfold Inv; simpl.
      rewrite length_insert. split_and!; try done.
      intros j. unfold taskInv, taskDone; simpl.
      destruct (decide (i = j)) as [<-|Hne].
      - rewrite list_lookup_insert_eq by done. split; [lia|done].
      - rewrite list_lookup_insert_ne by done. rewrite Hother by done.
        apply (Ht j). }
    destruct (limited o) eqn:El.
    + destruct (rt_sem s <? maxConcurrency o); [|done].
      inversion Hstep; subst; clear Hstep. apply Hgoal.
      * by rewrite project_app, project_tag_same, Hti.
      * intros j Hne. rewrite project_app, project_tag_other by done.
        by rewrite app_nil_r.
    + inversion Hstep; subst; clear Hstep. apply Hgoal.
      * unfold acquired. by rewrite El.
      * done.
  - (* Finish *)
    destruct (rt_phase s !! i) as [[|since|]|] eqn:Ei; try done.
    destruct (batch !! i) as [req|] eqn:Eb; [|done].
    destruct (runTask o ctx req since) as [resp ts] eqn:Er.
    destruct (dies o ctx req since) eqn:Ed; [done|].
    destruct (ts_now ts <=? rt_now s); [|done].
    inversion Hstep; subst; clear Hstep.
    assert (Hi : (i < length (rt_phase s))%nat) by (eapply lookup_lt_Some; eauto).
    pose proof (Ht i) as Hti. unfold taskInv in Hti. rewrite Ei in Hti.
    destruct Hti as [Hsince Hti].
    unfold Inv; simpl. rewrite !length_insert. split_and!; try done.
    intros j. unfold taskInv, taskDone; simpl.
    destruct (decide (i = j)) as [<-|Hne].
    + rewrite list_lookup_insert_eq by done.
      exists req, since. rewrite Er; simpl. split_and!; try done.
      * rewrite list_lookup_insert_eq by lia. done.
      * by rewrite project_app, project_tag_same, Hti.
    + rewrite !list_lookup_insert_ne by done.
      rewrite project_app, project_tag_other, app_nil_r by done.
      apply (Ht j).
Qed.

Lemma Inv_run sched : ∀ s s', Inv o ctx now0 batch s → run o ctx batch sched s = Some s' → Inv o ctx now0 batch s'.
Proof.
  induction sched as [|a sched IH]; simpl; intros s s' HI Hrun.
  - by inversion Hrun; subst.
  - destruct (step o ctx batch s a) as [s1|] eqn:Es; [|done].
    eapply IH; [|exact Hrun]. eapply Inv_step; eauto.
Qed.

(** When [ExecuteBatch] returns from the fan-out, every request of the
    batch has run to its end from some instant after the call. *)
Lemma ExecuteBatch_tasks_alive sched R tr :
  tooLarge o batch = false →
  ExecuteBatch o ctx now0 batch sched = Some (R, tr) →
  length R = length batch ∧
  ∀ i req, batch !! i = Some req →
    ∃ since, now0 ≤ since ∧
      R !! i = Some (fst (runTask o ctx req since)) ∧
      project i tr =
        acquired o since ++ ts_trace (snd (runTask o ctx req since))
          ++ released o (ts_now (snd (runTask o ctx req since))) ∧
      dies o ctx req since = false.
Proof.
  intros Hsmall Hexec. unfold ExecuteBatch in Hexec. rewrite Hsmall in Hexec.
  destruct (run o ctx batch sched (spawnAll now0 batch)) as [s|] eqn:Erun; [|done].
  destruct (forallb isFinished (rt_phase s)) eqn:Efin; [|done].
  inversion Hexec; subst; clear Hexec.
  destruct (Inv_run _ _ _ Inv_spawnAll Erun) as (Hp & Hr & Hn & Ht).
  split; [done|]. intros i req Hb.
  assert (Hi : (i < length (rt_phase s))%nat).
  { rewrite Hp. eapply lookup_lt_Some; eauto. }
  destruct (lookup_lt_is_Some_2 _ _ Hi) as [p Ep].
  assert (p = Finished) as ->.
  { rewrite forallb_forall in Efin.
    assert (Hin : In p (rt_phase s)).
    { apply list_elem_of_In. eapply list_elem_of_lookup_2; eauto. }
    specialize (Efin p Hin). by destruct p. }
  specialize (Ht i). unfold taskInv in Ht. rewrite Ep in Ht.
  destruct Ht as (req' & since & Hb' & Hs & Hres & Htr & Hd).
  assert (req' = req) as -> by congruence.
  exists since. done.
Qed.

Lemma ExecuteBatch_tasks sched R tr :
  tooLarge o batch = false →
  ExecuteBatch o ctx now0 batch sched = Some (R, tr) →
  length R = length batch ∧
  ∀ i req, batch !! i = Some req →
    ∃ since, now0 ≤ since ∧
      R !! i = Some (fst (runTask o ctx req since)) ∧
      project i tr =
        acquired o since ++ ts_trace (snd (runTask o ctx req since))
          ++ released o (ts_now (snd (runTask o ctx req since))).
Proof.
  intros Hsmall Hexec.
  destruct (ExecuteBatch_tasks_alive _ _ _ Hsmall Hexec) as [Hlen Hall].
  split; [done|]. intros i req Hb.
  destruct (Hall i req Hb) as (since & Hs & Hres & Htr & _). by exists since.
Qed.

(** *** The batch comes to its end

    Run one after the other, the goroutines all finish, whatever the
    concurrency limit, unless one of them brings the process down: the
    schedule [inOrder] is never blocked. *)




End Scheduling.

(** ** What a batch returns *)




(** Slot [i] of what [ExecuteBatch] returns: a response for request [i],
    or the zero value when the handler of task [i] ended the goroutine. *)
Lemma ExecuteBatch_slots o ctx now batch sched R tr :
  ExecuteBatch o ctx now batch sched = Some (R, tr) →
  length R = length batch ∧
  ∀ i req, batch !! i = Some req →
    ∃ resp, R !! i = Some resp ∧
      (answers req resp ∨
       (resp = zeroResponse ∧ tooLarge o batch = false ∧
        ∃ since, now ≤ since ∧ exits o ctx req since = true)).
Proof.
  intros Hexec. destruct (tooLarge o batch) eqn:Et.
  - unfold ExecuteBatch in Hexec. rewrite Et in Hexec. inversion Hexec; subst.
    split; [by rewrite length_map|].
    intros i req Hb. exists (batchTooLarge o batch req).
    rewrite lookup_map, Hb. split; [done|]. left.
    unfold answers, batchTooLarge; simpl. split_and!; try done.
    right. split; [set_solver|]. eexists. split; [done|]. set_solver.
  - destruct (ExecuteBatch_tasks_alive _ _ _ _ _ _ _ Et Hexec) as [Hlen Htasks].
    split; [done|]. intros i req Hb.
    destruct (Htasks i req Hb) as (since & Hs & Hres & _ & Hd).
    eexists. split; [exact Hres|].
    destruct (runTask_wellFormed o ctx req since) as [[He Hz]|(He & _ & Hwf)].
    + right. split_and!; try done. exists since. split; [done|].
      rewrite Hd, orb_false_r in He. done.
    + left. by apply wellFormed_answers.
Qed.

Lemma ExecuteBatch_answers o ctx now batch sched R tr :
  (∀ i req since, batch !! i = Some req → exits o ctx req since = false) →
  ExecuteBatch o ctx now batch sched = Some (R, tr) → Forall2 answers batch R.
Proof.
  intros Hstay Hexec. destruct (ExecuteBatch_slots _ _ _ _ _ _ _ Hexec) as [Hlen Hall].
  apply Forall2_same_length_lookup_2; [done|].
  intros i req resp Hb Hr.
  destruct (Hall i req Hb) as (resp' & Hr' & [Ha | (_ & _ & since & _ & He)]).
  - congruence.
  - by rewrite (Hstay i req since Hb) in He.
Qed.

(** A task that dies takes the process with it: the batch never returns. *)
Lemma dying_task_never_finishes o ctx now batch sched i req :
  tooLarge o batch = false →
  batch !! i = Some req →
  (∀ since, dies o ctx req since = true) →
  ExecuteBatch o ctx now batch sched = None.
Proof.
  intros Hsmall Hb Hd.
  destruct (ExecuteBatch o ctx now batch sched) as [[R tr]|] eqn:E; [|done].
  destruct (ExecuteBatch_tasks_alive _ _ _ _ _ _ _ Hsmall E) as [_ Htasks].
  destruct (Htasks i req Hb) as (since & _ & _ & _ & Halive).
  by rewrite Hd in Halive.
Qed.

Lemma nilError_dies since : dies withNilError Background nilErrorRequest since = true.
Proof.
  apply dies_iff. split; [done|]. exists nilError, None. split_and!; try done.
  unfold ctxErr, reached. simpl.
  change (resolveTimeout withNilError nilErrorRequest) with 5000000000.
  destruct (Z.leb_spec (since + 5000000000) (since + 0)) as [Hle|_]; [lia|done].
Qed.





(** C5.  A batch of N requests over a positive limit of M: whatever the
    schedule, [ExecuteBatch] returns at once, with an empty trace (no task
    is spawned, no hook fires, no handler runs), one response per request,
    each with the ID and the tenant of its request, status 413, code
    BATCH_TOO_LARGE and the message "batch size N exceeds limit of M". *)
Theorem ExecuteBatch_batch_too_large
    (o : Orchestrator) (ctx : Context) (now : Z) (batch : list SubRequest)
    (sched : list Action) :
  0 < maxBatchSize o →
  maxBatchSize o < Z.of_nat (length batch) →
  ∃ R, ExecuteBatch o ctx now batch sched = Some (R, []) ∧
       length R = length batch ∧
       ∀ i req, batch !! i = Some req →
         R !! i = Some (mkResponse (ID req) 413 None
                          (Some (mkError "BATCH_TOO_LARGE"
                                   ("batch size " +:+ itoa (Z.of_nat (length batch)) +:+
                                    " exceeds limit of " +:+ itoa (maxBatchSize o))
                                   None))
                          0 (TenantID req)).
Proof.
  intros Hpos Hover. exists (List.map (batchTooLarge o batch) batch).
  unfold ExecuteBatch, tooLarge.
  rewrite (proj2 (Z.ltb_lt _ _) Hpos), (proj2 (Z.ltb_lt _ _) Hover). simpl.
  split_and!; [done|by rewrite length_map|].
  intros i req Hb. by rewrite lookup_map, Hb.
Qed.

Lemma ExecuteBatch_batch_too_large_witness :
  ∃ R, ExecuteBatch limitTen Background 0 twenty [] = Some (R, []) ∧
       length R = 20%nat ∧
       ∀ i req, twenty !! i = Some req →
         R !! i = Some (mkResponse (ID req) 413 None
                          (Some (mkError "BATCH_TOO_LARGE"
                                   "batch size 20 exceeds limit of 10" None))
                          0 (TenantID req)).
Proof.
  apply (ExecuteBatch_batch_too_large limitTen Background 0 twenty []).
  - reflexivity.
  - reflexivity.
Defined.








(** ** Validation *)

(** C6.  A request with an empty ID, tenant or recipe: the task answers
    400 / INVALID_REQUEST with the ID and tenant of the request, and its
    trace holds the validation and the store only: no handler call, no
    [OnStart], no [OnComplete], no [OnPanic].  In a batch within the size
    limit that response is the one at the index of the request, and the
    task did nothing else but take and give back its slot. *)
Theorem executeRequest_invalid_request
    (o : Orchestrator) (ctx : Context) (req : SubRequest) :
  ID req = "" ∨ TenantID req = "" ∨ Recipe req = "" →
  (∀ since,
     let resp := fst (runTask o ctx req since) in
     let tr := ts_trace (snd (runTask o ctx req since)) in
     rID resp = ID req ∧ rTenantID resp = TenantID req ∧
     rStatus resp = 400 ∧
     (∃ e, rError resp = Some e ∧ Code e = "INVALID_REQUEST") ∧
     tr = [(since, EvValidate false); (since, EvStore resp)] ∧
     calls isHandler tr = 0%nat ∧ calls isOnStart tr = 0%nat ∧
     calls isOnComplete tr = 0%nat ∧ calls isOnPanic tr = 0%nat) ∧
  (∀ now batch sched R tr i,
     tooLarge o batch = false →
     ExecuteBatch o ctx now batch sched = Some (R, tr) →
     batch !! i = Some req →
     R !! i = Some (invalidResponse req) ∧
     calls isHandler (project i tr) = 0%nat ∧ calls isOnStart (project i tr) = 0%nat ∧
     calls isOnComplete (project i tr) = 0%nat ∧ calls isOnPanic (project i tr) = 0%nat).
Proof.
  intros Hempty.
  assert (Hinv : invalid req = true).
  { unfold invalid. destruct Hempty as [-> | [-> | ->]]; simpl;
      rewrite ?orb_true_r; reflexivity. }
  split.
  - intros since resp tr. unfold resp, tr. rewrite runTask_invalid by done. simpl.
    split_and!; try done. by eexists.
  - intros now batch sched R tr i Hsmall Hexec Hb.
    destruct (ExecuteBatch_tasks _ _ _ _ _ _ _ Hsmall Hexec) as [_ Htasks].
    destruct (Htasks i req Hb) as (since & _ & Hres & Htr).
    rewrite runTask_invalid in Hres, Htr by done. simpl in Hres, Htr.
    rewrite Htr. split; [done|].
    unfold acquired, released. destruct (limited o); simpl; done.
Qed.

Lemma executeRequest_invalid_request_witness :
  rStatus (fst (runTask demo Background (mkSubRequest "1" "" "echo" None) 0)) = 400.
Proof.
  assert (Hempty : ID (mkSubRequest "1" "" "echo" None) = ""
                   ∨ TenantID (mkSubRequest "1" "" "echo" None) = ""
                   ∨ Recipe (mkSubRequest "1" "" "echo" None) = "").
  { right. left. reflexivity. }
  destruct (proj1 (executeRequest_invalid_request demo Background _ Hempty) 0)
    as (_ & _ & Hst & _).
  exact Hst.
Defined.

(** ** Unregistered recipes *)




(** ** Panics *)




(** ** The order of the steps of a task *)

(** C7, counterexample.  The two jobs are spawned at instant 0 and run
    one after the other.  The second one takes the slot before it
    validates, and its deadline is counted from the instant it got the slot
    (4 s): it ends 8 s after it was spawned, beyond the timeout of 5 s, and
    is answered 200. *)
Lemma slot_taken_before_validation :
  ∃ R tr,
    ExecuteBatch oneSlot Background 0 twoJobs (inOrder oneSlot Background 0 0 twoJobs)
      = Some (R, tr) ∧
    precedes isValidate isAcquire (project 1 tr) = false ∧
    precedes isAcquire isValidate (project 1 tr) = true ∧
    List.map (fun e => (fst e, isAcquire (snd e), isValidate (snd e))) (take 2 (project 1 tr))
      = [(4 * Second, true, false); (4 * Second, false, true)] ∧
    last (List.map fst (project 1 tr)) = Some (8 * Second) ∧
    timeout oneSlot = 5 * Second ∧
    rStatus <$> R !! 1%nat = Some 200.
Proof.
  destruct (ExecuteBatch oneSlot Background 0 twoJobs
              (inOrder oneSlot Background 0 0 twoJobs)) as [[R tr]|] eqn:E;
    [|vm_compute in E; discriminate].
  exists R, tr. split; [reflexivity|].
  vm_compute in E. inversion E; subst; clear E.
  vm_compute. split_and!; reflexivity.
Qed.

(** C7, amended.  In a batch within the size limit every task goes through
    its steps in this order: it takes a concurrency slot (when there is a
    limit), at some instant [since] not before the call; then it
    validates; then, for a valid request, it builds its context, with the
    recipe's timeout when that is set and positive and the default one
    otherwise; then it calls [OnStart] and, if the recipe is registered,
    the handler.  The deadline is counted from [since], the instant the
    slot was taken, not from the instant the task was spawned. *)
Theorem ExecuteBatch_task_order
    (o : Orchestrator) (ctx : Context) (now : Z) (batch : list SubRequest)
    (sched : list Action) (R : list Response) (tr : list (nat * (Z * Event)))
    (i : nat) (req : SubRequest) :
  tooLarge o batch = false →
  ExecuteBatch o ctx now batch sched = Some (R, tr) →
  batch !! i = Some req →
  ∃ since rest,
    now ≤ since ∧
    project i tr =
      acquired o since ++ (since, EvValidate (negb (invalid req))) :: rest ∧
    (0 < maxConcurrency o → acquired o since = [(since, EvAcquire)]) ∧
    (invalid req = true →
     rest = (since, EvStore (invalidResponse req)) :: released o since) ∧
    (invalid req = false →
     let tctx := taskContext o ctx req since in
     (∃ rest', rest = (since, EvWithTimeout (resolveTimeout o req))
                      :: (since, EvOnStart tctx req) :: rest' ∧
               ∀ h : Handler, registry o !! Recipe req = Some h →
                 ∃ rest'', rest' = (since, EvHandler tctx (Payload req)) :: rest'') ∧
     ctx_deadline tctx =
       Some (match ctx_deadline ctx with
             | Some p => Z.min p (since + resolveTimeout o req)
             | None => since + resolveTimeout o req
             end) ∧
     (∀ opt, recipeOptions o !! Recipe req = Some opt → 0 < Timeout opt →
        resolveTimeout o req = Timeout opt) ∧
     ((∀ opt, recipeOptions o !! Recipe req = Some opt → Timeout opt ≤ 0) →
        resolveTimeout o req = timeout o)).
Proof.
  intros Hsmall Hexec Hb.
  destruct (ExecuteBatch_tasks _ _ _ _ _ _ _ Hsmall Hexec) as [_ Htasks].
  destruct (Htasks i req Hb) as (since & Hsince & _ & Htr).
  exists since.
  assert (Hacq : 0 < maxConcurrency o → acquired o since = [(since, EvAcquire)]).
  { intros Hpos. unfold acquired, limited. by rewrite (proj2 (Z.ltb_lt _ _) Hpos). }
  destruct (invalid req) eqn:Hinv.
  - rewrite runTask_invalid in Htr by done. simpl in Htr.
    eexists. split_and!; [done|exact Htr|done|done|done].
  - destruct (registry o !! Recipe req) as [h|] eqn:Hreg.
    + rewrite (runTask_registered _ _ _ _ h) in Htr by done. cbv zeta in Htr.
      destruct (verdict _ _) as [v| |]; simpl in Htr;
        (eexists; split_and!; [done|exact Htr|done|done|];
         intros _ tctx; split_and!;
         [ eexists; split; [reflexivity|]; intros h' Hh'; by eexists
         | reflexivity
         | apply resolveTimeout_override
         | apply resolveTimeout_default ]).
    + rewrite runTask_not_found in Htr by done. simpl in Htr.
      eexists. split_and!; [done|exact Htr|done|done|].
      intros _ tctx. split_and!.
      * eexists. split; [reflexivity|]. intros h' Hh'. congruence.
      * reflexivity.
      * apply resolveTimeout_override.
      * apply resolveTimeout_default.
Qed.

Lemma ExecuteBatch_task_order_witness :
  ∃ since rest,
    0 ≤ since ∧
    project 1 (snd (default ([], [])
                      (ExecuteBatch oneSlot Background 0 twoJobs
                         (inOrder oneSlot Background 0 0 twoJobs)))) =
      [(since, EvAcquire); (since, EvValidate true)] ++ rest.
Proof.
  destruct (ExecuteBatch oneSlot Background 0 twoJobs
              (inOrder oneSlot Background 0 0 twoJobs)) as [[R tr]|] eqn:E;
    [|vm_compute in E; discriminate].
  destruct (ExecuteBatch_task_order oneSlot Background 0 twoJobs _ R tr 1
              (mkSubRequest "2" "tenant-a" "work" None) eq_refl E eq_refl)
    as (since & rest & Hsince & Htr & Hacq & _).
  exists since, rest. split; [exact Hsince|].
  simpl. rewrite Htr, Hacq by reflexivity. reflexivity.
Defined.

(** ** Waiting for a slot *)

(** The send on the semaphore does not look at the context: with the
    channel full, a spawned goroutine cannot move, whatever the context
    and the clock say. *)
Lemma full_semaphore_blocks o ctx batch s i :
  0 < maxConcurrency o →
  maxConcurrency o ≤ rt_sem s →
  step o ctx batch s (Start i) = None.
Proof.
  intros Hpos Hfull. simpl. destruct (rt_phase s !! i) as [[| |]|]; try done.
  unfold limited. rewrite (proj2 (Z.ltb_lt _ _) Hpos).
  by rewrite (proj2 (Z.ltb_ge _ _) Hfull).
Qed.

(** C2, the code at the failing input.  The first job holds the only slot for one
    second; the context is cancelled after 100 ms.  The second job stays
    blocked on the semaphore however long it waits, cancellation or not;
    it gets the slot when the first job gives it back, then runs its
    handler and is answered 200, not 504 / TIMEOUT. *)
Theorem semaphore_wait_ignores_cancellation :
  (∀ d : N,
     run singleSlot cancelledSoon slowJobs [Start 0; Tick d; Start 1]
         (spawnAll 0 slowJobs) = None) ∧
  ctxErr cancelledSoon (1 * Second) = Some Canceled ∧
  ∃ R tr,
    ExecuteBatch singleSlot cancelledSoon 0 slowJobs
      [Start 0; Tick (Z.to_N (1 * Second)); Finish 0;
       Start 1; Tick (Z.to_N (1 * Second)); Finish 1] = Some (R, tr) ∧
    R !! 1%nat = Some (mkResponse "2" 200 (Some (AString "ok")) None (1 * Second) "tenant-b") ∧
    calls isHandler (project 1 tr) = 1%nat ∧
    List.map fst (take 1 (project 1 tr)) = [1 * Second].
Proof.
  split_and!.
  - intros d. reflexivity.
  - reflexivity.
  - destruct (ExecuteBatch singleSlot cancelledSoon 0 slowJobs
                [Start 0; Tick (Z.to_N (1 * Second)); Finish 0;
                 Start 1; Tick (Z.to_N (1 * Second)); Finish 1]) as [[R tr]|] eqn:E;
      [|vm_compute in E; discriminate].
    exists R, tr. split; [reflexivity|].
    vm_compute in E. inversion E; subst; clear E.
    vm_compute. split_and!; reflexivity.
Qed.

(** ** Strict registration *)

(** C8.  [RegisterRecipeStrict] panics exactly when [RegisterRecipe] does,
    with the same message (empty name, nil handler); on a name that is
    already registered it returns the "already registered" error and the
    orchestrator as it was, registry and option map included; on a new
    name it registers as [RegisterRecipe] does. *)
Theorem RegisterRecipeStrict_rejects_duplicates
    (o : Orchestrator) (name : string) (handler : option Handler)
    (opts : list (option RecipeOption)) :
  (∀ msg, RegisterRecipeStrict o name handler opts = Panic msg ↔
          RegisterRecipe o name handler opts = Panic msg) ∧
  (name = "" → RegisterRecipeStrict o name handler opts
               = Panic "recipe name cannot be empty") ∧
  (name ≠ "" → handler = None →
   RegisterRecipeStrict o name handler opts = Panic "recipe handler cannot be nil") ∧
  (name ≠ "" → is_Some handler → is_Some (registry o !! name) →
   RegisterRecipeStrict o name handler opts = Done (o, Some (AlreadyRegistered name))) ∧
  (name ≠ "" → is_Some handler → registry o !! name = None →
   ∃ o', RegisterRecipe o name handler opts = Done o' ∧
         RegisterRecipeStrict o name handler opts = Done (o', None) ∧
         registry o' !! name = handler).
Proof.
  unfold RegisterRecipeStrict, RegisterRecipe.
  destruct (String.eqb_spec name "") as [->|Hne].
  { split_and!; intros; try done. split; intros [= <-]; reflexivity. }
  destruct handler as [h|].
  - destruct (registry o !! name) as [h0|] eqn:Hreg.
    + split_and!; intros; done.
    + split_and!; intros; try done.
      eexists. split_and!; try reflexivity. simpl. by rewrite lookup_insert_eq.
  - split_and!; intros; try done. split; intros [= <-]; reflexivity.
Qed.

Lemma RegisterRecipeStrict_rejects_duplicates_witness :
  RegisterRecipeStrict withTest "test" (Some ok) []
  = Done (withTest, Some (AlreadyRegistered "test")).
Proof.
  apply (proj1 (proj2 (proj2 (proj2
           (RegisterRecipeStrict_rejects_duplicates withTest "test" (Some ok) []))))).
  - discriminate.
  - by eexists.
  - vm_compute. by eexists.
Defined.

(** * Part IV: further properties *)

(** ** context.go *)

(** X1.  Each accessor reads back what its setter stored, and no setter
    disturbs the two other accessors, the deadline or the cancellation of
    the context: the three values are independently retrievable, in
    whatever order they were set. *)
Theorem context_set_get_laws (ctx : Context) (v : string) :
  (GetTenantID (WithTenantID ctx v) = (v, true) ∧
   RequestID (WithRequestID ctx v) = (v, true) ∧
   RecipeName (WithRecipeName ctx v) = (v, true)) ∧
  (GetTenantID (WithRequestID ctx v) = GetTenantID ctx ∧
   GetTenantID (WithRecipeName ctx v) = GetTenantID ctx ∧
   RequestID (WithTenantID ctx v) = RequestID ctx ∧
   RequestID (WithRecipeName ctx v) = RequestID ctx ∧
   RecipeName (WithTenantID ctx v) = RecipeName ctx ∧
   RecipeName (WithRequestID ctx v) = RecipeName ctx) ∧
  (∀ now, ctxErr (WithTenantID ctx v) now = ctxErr ctx now ∧
          ctxErr (WithRequestID ctx v) now = ctxErr ctx now ∧
          ctxErr (WithRecipeName ctx v) now = ctxErr ctx now).
Proof. split_and!; try reflexivity. intros now. split_and!; reflexivity. Qed.

(** X2.  On a context that holds values under keys of other packages
    only, whatever their names and values, the three accessors find
    nothing: they return the empty string and false. *)
Theorem accessors_ignore_foreign_values (ctx : Context) :
  (∀ k v, In (k, v) (ctx_values ctx) → isForeign k = true) →
  GetTenantID ctx = ("", false) ∧
  RequestID ctx = ("", false) ∧
  RecipeName ctx = ("", false).
Proof.
  intros Hforeign.
  assert (Hnone : ∀ n, Value ctx (RelayerKey n) = None).
  { intros n. unfold Value. induction (ctx_values ctx) as [|[k v] vs IH]; [done|].
    simpl. pose proof (Hforeign k v (or_introl eq_refl)) as Hk.
    destruct k as [m|name]; [discriminate|]. simpl.
    apply IH. intros k' v' Hin. apply (Hforeign k' v'). by right. }
  unfold GetTenantID, RequestID, RecipeName, tenantIDKey, requestIDKey, recipeNameKey.
  rewrite !Hnone. done.
Qed.

Lemma accessors_ignore_foreign_values_witness :
  GetTenantID (WithValue Background (ForeignKey "tenant_id") (AString "should-not-work"))
  = ("", false).
Proof.
  apply (accessors_ignore_foreign_values
           (WithValue Background (ForeignKey "tenant_id") (AString "should-not-work"))).
  intros k v [Heq | []]. inversion Heq. reflexivity.
Defined.

(** X3.  A value stored by another package, under any key name, changes
    none of the three accessors; and the three setters change no value
    stored under another package's key. *)
Theorem foreign_keys_do_not_collide (ctx : Context) (name : string) (v : Any) (s : string) :
  (GetTenantID (WithValue ctx (ForeignKey name) v) = GetTenantID ctx ∧
   RequestID (WithValue ctx (ForeignKey name) v) = RequestID ctx ∧
   RecipeName (WithValue ctx (ForeignKey name) v) = RecipeName ctx) ∧
  (Value (WithTenantID ctx s) (ForeignKey name) = Value ctx (ForeignKey name) ∧
   Value (WithRequestID ctx s) (ForeignKey name) = Value ctx (ForeignKey name) ∧
   Value (WithRecipeName ctx s) (ForeignKey name) = Value ctx (ForeignKey name)).
Proof. split_and!; reflexivity. Qed.

(** X4.  Whatever the caller's context carried, every hook and every
    handler a task calls gets a context from which the tenant, the ID and
    the recipe of the task's own request are read back, and in which the
    caller's values under foreign keys are still there. *)
Theorem task_context_carries_request
    (o : Orchestrator) (ctx : Context) (req : SubRequest) (since : Z)
    (t : Z) (e : Event) (c : Context) :
  In (t, e) (ts_trace (snd (runTask o ctx req since))) →
  eventCtx e = Some c →
  GetTenantID c = (TenantID req, true) ∧
  RequestID c = (ID req, true) ∧
  RecipeName c = (Recipe req, true) ∧
  (∀ name, Value c (ForeignKey name) = Value ctx (ForeignKey name)) ∧
  ctx_cancel_at c = ctx_cancel_at ctx.
Proof.
  intros Hin Hc.
  assert (Hgoal : c = taskContext o ctx req since →
    GetTenantID c = (TenantID req, true) ∧ RequestID c = (ID req, true) ∧
    RecipeName c = (Recipe req, true) ∧
    (∀ name, Value c (ForeignKey name) = Value ctx (ForeignKey name)) ∧
    ctx_cancel_at c = ctx_cancel_at ctx).
  { intros ->. split_and!; reflexivity. }
  apply Hgoal. clear Hgoal.
  destruct (invalid req) eqn:Hinv.
  { rewrite runTask_invalid in Hin by done. simpl in Hin.
    destruct Hin as [[= <- <-] | [[= <- <-] | []]]; discriminate. }
  destruct (registry o !! Recipe req) as [h|] eqn:Hreg.
  - rewrite (runTask_registered _ _ _ _ h) in Hin by done. cbv zeta in Hin.
    unfold panicCalls in Hin.
    destruct (run_outcome _) as [data [[msg|]|]|r|]; simpl in Hin;
      try (destruct (ctxErr _ _) as [[]|]; simpl in Hin);
      repeat (destruct Hin as [[= <- <-] | Hin]; [simpl in Hc; congruence|]);
      destruct Hin.
  - rewrite runTask_not_found in Hin by done. simpl in Hin.
    repeat (destruct Hin as [[= <- <-] | Hin]; [simpl in Hc; congruence|]).
    destruct Hin.
Qed.

Lemma task_context_carries_request_witness :
  ∃ c, eventCtx (EvOnStart c missing) = Some c ∧
       GetTenantID c = ("b", true) ∧ RequestID c = ("2", true) ∧
       RecipeName c = ("missing", true).
Proof.
  exists (taskContext demo (WithTenantID Background "other") missing 0).
  split; [reflexivity|].
  destruct (task_context_carries_request demo (WithTenantID Background "other") missing 0
              0 (EvOnStart (taskContext demo (WithTenantID Background "other") missing 0) missing)
              (taskContext demo (WithTenantID Background "other") missing 0))
    as (Ht & Hr & Hn & _).
  - vm_compute. right. right. left. reflexivity.
  - reflexivity.
  - split_and!; assumption.
Defined.

(** ** types.go *)

Lemma List_filter_sublist {A} (p : A → bool) (l : list A) : sublist (List.filter p l) l.
Proof.
  induction l as [|x l IH]; simpl; [constructor|].
  destruct (p x); by constructor.
Qed.

Lemma List_filter_comm {A} (p q : A → bool) (l : list A) :
  List.filter p (List.filter q l) = List.filter q (List.filter p l).
Proof.
  induction l as [|x l IH]; simpl; [done|].
  destruct (q x) eqn:Hq, (p x) eqn:Hp; simpl; rewrite ?Hq, ?Hp, IH; done.
Qed.

Lemma List_filter_implied {A} (p q : A → bool) (l : list A) :
  (∀ x, q x = true → p x = true) →
  List.filter p (List.filter q l) = List.filter q l.
Proof.
  intros Himp. induction l as [|x l IH]; simpl; [done|].
  destruct (q x) eqn:Hq; simpl; [|done]. by rewrite (Himp x Hq), IH.
Qed.

Lemma List_filter_excluded {A} (p q : A → bool) (l : list A) :
  (∀ x, q x = true → p x = false) →
  List.filter p (List.filter q l) = [].
Proof.
  intros Hexc. induction l as [|x l IH]; simpl; [done|].
  destruct (q x) eqn:Hq; simpl; [|done]. by rewrite (Hexc x Hq), IH.
Qed.

(** X5.  The three filters select without inventing or reordering: the
    result is a subsequence of the input and holds exactly the responses
    of the input that pass the test (status in [200, 300), status equal
    to the one asked for, tenant equal to the one asked for). *)
Theorem filters_select (responses : list Response) (status : Z) (tenantID : string)
    (resp : Response) :
  (sublist (FilterSuccess responses) responses ∧
   sublist (FilterByStatus responses status) responses ∧
   sublist (FilterByTenant responses tenantID) responses) ∧
  (In resp (FilterSuccess responses) ↔
     In resp responses ∧ 200 ≤ rStatus resp < 300) ∧
  (In resp (FilterByStatus responses status) ↔
     In resp responses ∧ rStatus resp = status) ∧
  (In resp (FilterByTenant responses tenantID) ↔
     In resp responses ∧ rTenantID resp = tenantID).
Proof.
  unfold FilterSuccess, FilterByStatus, FilterByTenant.
  split_and!; try apply List_filter_sublist; rewrite filter_In.
  - rewrite andb_true_iff, Z.leb_le, Z.ltb_lt. tauto.
  - by rewrite Z.eqb_eq.
  - by rewrite String.eqb_eq.
Qed.

(** X6.  How the filters compose: filtering by tenant commutes with
    filtering by success and by status; each filter is idempotent;
    filtering the successes by a status outside [200, 300), or the
    responses of one status by another status, leaves nothing; and the
    successes among the responses of a status in [200, 300) are all of
    them. *)
Theorem filters_compose (responses : list Response) (status status' : Z)
    (tenantID : string) :
  FilterByTenant (FilterSuccess responses) tenantID
    = FilterSuccess (FilterByTenant responses tenantID) ∧
  FilterByTenant (FilterByStatus responses status) tenantID
    = FilterByStatus (FilterByTenant responses tenantID) status ∧
  FilterSuccess (FilterSuccess responses) = FilterSuccess responses ∧
  FilterByStatus (FilterByStatus responses status) status
    = FilterByStatus responses status ∧
  FilterByTenant (FilterByTenant responses tenantID) tenantID
    = FilterByTenant responses tenantID ∧
  (status ≠ status' →
   FilterByStatus (FilterByStatus responses status) status' = []) ∧
  (¬ (200 ≤ status < 300) →
   FilterByStatus (FilterSuccess responses) status = []) ∧
  (200 ≤ status < 300 →
   FilterSuccess (FilterByStatus responses status) = FilterByStatus responses status).
Proof.
  unfold FilterSuccess, FilterByStatus, FilterByTenant. split_and!.
  - apply List_filter_comm.
  - apply List_filter_comm.
  - by apply List_filter_implied.
  - by apply List_filter_implied.
  - by apply List_filter_implied.
  - intros Hne. apply List_filter_excluded. intros x Hx.
    apply Z.eqb_eq in Hx. apply Z.eqb_neq. congruence.
  - intros Hout. apply List_filter_excluded. intros x Hx.
    apply andb_true_iff in Hx as [H1 H2]. apply Z.leb_le in H1. apply Z.ltb_lt in H2.
    apply Z.eqb_neq. lia.
  - intros Hin. apply List_filter_implied. intros x Hx.
    apply Z.eqb_eq in Hx. apply andb_true_iff. rewrite Z.leb_le, Z.ltb_lt. lia.
Qed.

Lemma filters_compose_witness :
  FilterByStatus (FilterByStatus
    [mkResponse "1" 200 None None 0 "a"; mkResponse "2" 404 None None 0 "b"] 200) 404 = [] ∧
  FilterSuccess (FilterByStatus
    [mkResponse "1" 200 None None 0 "a"; mkResponse "2" 404 None None 0 "b"] 200)
  = FilterByStatus
    [mkResponse "1" 200 None None 0 "a"; mkResponse "2" 404 None None 0 "b"] 200.
Proof.
  destruct (filters_compose
              [mkResponse "1" 200 None None 0 "a"; mkResponse "2" 404 None None 0 "b"]
              200 404 "a") as (_ & _ & _ & _ & _ & Hne & _ & Hin).
  split; [apply Hne; discriminate | apply Hin; lia].
Defined.

Lemma status_of_answers req resp :
  answers req resp → rStatus resp ∈ [200; 400; 404; 413; 500; 504].
Proof.
  intros (_ & _ & [[-> _] | [Hst _]]); rewrite !elem_of_cons in *; tauto.
Qed.

Lemma ExecuteBatch_statuses o ctx now batch sched R tr :
  ExecuteBatch o ctx now batch sched = Some (R, tr) →
  length R = length batch ∧
  Forall (fun resp => rStatus resp ∈ [0; 200; 400; 404; 413; 500; 504]) R.
Proof.
  intros Hexec. destruct (ExecuteBatch_slots _ _ _ _ _ _ _ Hexec) as [Hlen Hall].
  split; [done|]. apply Forall_forall. intros resp Hin.
  apply list_elem_of_lookup in Hin as [i Hi].
  assert (Hlt : (i < length batch)%nat) by (rewrite <- Hlen; eapply lookup_lt_Some; eauto).
  destruct (lookup_lt_is_Some_2 _ _ Hlt) as [req Hb].
  destruct (Hall i req Hb) as (resp' & Hr & Hcase).
  assert (resp' = resp) as -> by congruence.
  destruct Hcase as [Hans | (-> & _)].
  - apply status_of_answers in Hans. rewrite !elem_of_cons in *. tauto.
  - simpl. rewrite !elem_of_cons. tauto.
Qed.

(** X7.  On what [ExecuteBatch] returns, the successes are the responses
    of status 200, and the status filters for 0, 200, 400, 404, 413, 500
    and 504 split the responses: their sizes add up to the size of the
    batch.  Status 0 is the one of the zero [Response] a task leaves when
    its handler ends the goroutine; when no handler of the batch does
    that, no response has it. *)
Theorem filters_split_results
    (o : Orchestrator) (ctx : Context) (now : Z) (batch : list SubRequest)
    (sched : list Action) (R : list Response) (tr : list (nat * (Z * Event))) :
  ExecuteBatch o ctx now batch sched = Some (R, tr) →
  FilterSuccess R = FilterByStatus R 200 ∧
  (length (FilterByStatus R 0)
   + length (FilterByStatus R 200) + length (FilterByStatus R 400)
   + length (FilterByStatus R 404) + length (FilterByStatus R 413)
   + length (FilterByStatus R 500) + length (FilterByStatus R 504)
   = length batch)%nat ∧
  ((∀ i req since, batch !! i = Some req → exits o ctx req since = false) →
   FilterByStatus R 0 = []).
Proof.
  intros Hexec.
  destruct (ExecuteBatch_statuses _ _ _ _ _ _ _ Hexec) as [Hlen Hst].
  rewrite <- Hlen. split_and!.
  - clear Hlen Hexec. unfold FilterSuccess, FilterByStatus.
    induction Hst as [|resp R Hresp _ IH]; [done|].
    simpl. rewrite !elem_of_cons, elem_of_nil in Hresp.
    destruct Hresp as [-> | [-> | [-> | [-> | [-> | [-> | [-> | []]]]]]]]; simpl;
      by rewrite ?IH.
  - clear Hlen Hexec. unfold FilterByStatus.
    induction Hst as [|resp R Hresp _ IH]; [done|].
    simpl. rewrite !elem_of_cons, elem_of_nil in Hresp.
    destruct Hresp as [-> | [-> | [-> | [-> | [-> | [-> | [-> | []]]]]]]]; simpl; lia.
  - intros Hstay.
    pose proof (ExecuteBatch_answers _ _ _ _ _ _ _ Hstay Hexec) as Hall.
    clear Hst Hlen Hexec Hstay. unfold FilterByStatus.
    induction Hall as [|req resp batch' R' Hans _ IH]; [done|].
    simpl. apply status_of_answers in Hans.
    rewrite !elem_of_cons, elem_of_nil in Hans.
    destruct Hans as [-> | [-> | [-> | [-> | [-> | [-> | []]]]]]]; simpl; exact IH.
Qed.

Lemma filters_split_results_witness :
  ∃ R tr,
    ExecuteBatch demo Background 0 demoBatch (inOrder demo Background 0 0 demoBatch)
      = Some (R, tr) ∧
    FilterSuccess R = FilterByStatus R 200.
Proof.
  destruct (ExecuteBatch demo Background 0 demoBatch
              (inOrder demo Background 0 0 demoBatch)) as [[R tr]|] eqn:E;
    [|vm_compute in E; discriminate].
  exists R, tr. split; [reflexivity|].
  exact (proj1 (filters_split_results demo Background 0 demoBatch _ R tr E)).
Defined.

(** ** options.go and [New] *)

Lemma applyOptions_settings (ss : list Setting) :
  ∀ o0 o, applyOptions (List.map asOption ss) o0 = Done o →
    Forall (fun s => accepted s = true) ss ∧
    registry o = registry o0 ∧ recipeOptions o = recipeOptions o0 ∧
    timeout o = default (timeout o0) (last (timeoutsOf ss)) ∧
    maxConcurrency o = default (maxConcurrency o0) (last (concurrenciesOf ss)) ∧
    maxBatchSize o = default (maxBatchSize o0) (last (batchSizesOf ss)).
Proof.
  unfold timeoutsOf, concurrenciesOf, batchSizesOf.
  induction ss as [|s ss IH]; simpl; intros o0 o Happ.
  { inversion Happ; subst. split_and!; done. }
  destruct (asOption s o0) as [o1|msg] eqn:Eopt; [|done].
  destruct (IH o1 o Happ) as (Hacc & Hreg & Hopt & Ht & Hc & Hb).
  rewrite Hreg, Hopt, Ht, Hc, Hb. clear IH Happ Hreg Hopt Ht Hc Hb.
  destruct s as [t|n|n]; simpl in Eopt |- *;
    unfold WithTimeout, WithMaxConcurrency, WithMaxBatchSize in Eopt.
  - destruct (t <=? 0) eqn:Et; [done|]. apply Z.leb_gt in Et.
    inversion Eopt; subst; simpl.
    split_and!; try done.
    + constructor; [|done]. simpl. by apply Z.ltb_lt.
    + rewrite last_cons. by destruct (last _).
  - destruct (n <? 0) eqn:En; [done|]. apply Z.ltb_ge in En.
    inversion Eopt; subst; simpl.
    split_and!; try done.
    + constructor; [|done]. simpl. by apply Z.leb_le.
    + rewrite last_cons. by destruct (last _).
  - destruct (n <? 0) eqn:En; [done|]. apply Z.ltb_ge in En.
    inversion Eopt; subst; simpl.
    split_and!; try done.
    + constructor; [|done]. simpl. by apply Z.leb_le.
    + rewrite last_cons. by destruct (last _).
Qed.

Lemma applyOptions_accepted (ss : list Setting) :
  Forall (fun s => accepted s = true) ss →
  ∀ o0, ∃ o, applyOptions (List.map asOption ss) o0 = Done o.
Proof.
  induction 1 as [|s ss Hs _ IH]; simpl; intros o0; [by eexists|].
  destruct s as [t|n|n]; simpl in Hs |- *;
    unfold WithTimeout, WithMaxConcurrency, WithMaxBatchSize.
  - apply Z.ltb_lt in Hs. rewrite (proj2 (Z.leb_gt _ _) Hs). apply IH.
  - apply Z.leb_le in Hs. rewrite (proj2 (Z.ltb_ge _ _) Hs). apply IH.
  - apply Z.leb_le in Hs. rewrite (proj2 (Z.ltb_ge _ _) Hs). apply IH.
Qed.

(** X8.  [New] succeeds exactly when every setting is acceptable (a
    positive timeout, non-negative limits).  The orchestrator it builds
    has no recipes and no recipe options; each of its three settings is
    the last one given for it, or the default (5 s, no concurrency limit,
    no batch limit) when none was given. *)
Theorem New_applies_settings (ss : list Setting) :
  ((∃ o, New (List.map asOption ss) = Done o) ↔
   Forall (fun s => accepted s = true) ss) ∧
  ∀ o, New (List.map asOption ss) = Done o →
    registry o = ∅ ∧ recipeOptions o = ∅ ∧
    timeout o = default (5 * Second) (last (timeoutsOf ss)) ∧
    maxConcurrency o = default 0 (last (concurrenciesOf ss)) ∧
    maxBatchSize o = default 0 (last (batchSizesOf ss)).
Proof.
  unfold New. split; [split|].
  - intros [o Ho]. by destruct (applyOptions_settings ss _ _ Ho).
  - intros Hacc. by apply applyOptions_accepted.
  - intros o Ho. by destruct (applyOptions_settings ss _ _ Ho) as (_ & ? & ? & ? & ? & ?).
Qed.

Lemma New_applies_settings_witness :
  ∃ o, New (List.map asOption [SetTimeout (10 * Second); SetMaxConcurrency 50;
                               SetTimeout (1 * Second)]) = Done o ∧
       timeout o = 1 * Second ∧ maxConcurrency o = 50 ∧ maxBatchSize o = 0.
Proof.
  destruct (New (List.map asOption [SetTimeout (10 * Second); SetMaxConcurrency 50;
                                    SetTimeout (1 * Second)])) as [o|msg] eqn:E;
    [|vm_compute in E; discriminate].
  exists o. split; [reflexivity|].
  destruct (proj2 (New_applies_settings _) o E) as (_ & _ & Ht & Hc & Hb).
  split_and!; assumption.
Defined.

(** X9.  Every orchestrator [New] returns has a positive timeout and
    non-negative limits. *)
Theorem New_orchestrator_is_sane (ss : list Setting) (o : Orchestrator) :
  New (List.map asOption ss) = Done o →
  0 < timeout o ∧ 0 ≤ maxConcurrency o ∧ 0 ≤ maxBatchSize o.
Proof.
  intros Ho. unfold New in Ho.
  destruct (applyOptions_settings ss _ _ Ho) as (Hacc & _ & _ & Ht & Hc & Hb).
  rewrite Ht, Hc, Hb. simpl. clear Ho Ht Hc Hb.
  rewrite Forall_forall in Hacc.
  assert (Hin : ∀ {A} (f : Setting → option A) (x : A),
            last (omap f ss) = Some x → ∃ s, s ∈ ss ∧ f s = Some x).
  { intros A f x Hlast. apply last_Some_elem_of in Hlast.
    apply list_elem_of_omap in Hlast. done. }
  split_and!.
  - destruct (last (timeoutsOf ss)) as [t|] eqn:El; simpl; [|unfold Second; lia].
    destruct (Hin _ _ _ El) as ([t'|n|n] & Hs & [= ->]).
    specialize (Hacc _ Hs). simpl in Hacc. by apply Z.ltb_lt.
  - destruct (last (concurrenciesOf ss)) as [n|] eqn:El; simpl; [|lia].
    destruct (Hin _ _ _ El) as ([t'|n'|n'] & Hs & [= ->]).
    specialize (Hacc _ Hs). simpl in Hacc. by apply Z.leb_le.
  - destruct (last (batchSizesOf ss)) as [n|] eqn:El; simpl; [|lia].
    destruct (Hin _ _ _ El) as ([t'|n'|n'] & Hs & [= ->]).
    specialize (Hacc _ Hs). simpl in Hacc. by apply Z.leb_le.
Qed.

Lemma New_orchestrator_is_sane_witness :
  ∃ o, New (List.map asOption [SetMaxBatchSize 100]) = Done o ∧ 0 < timeout o.
Proof.
  destruct (New (List.map asOption [SetMaxBatchSize 100])) as [o|msg] eqn:E;
    [|vm_compute in E; discriminate].
  exists o. split; [reflexivity|].
  exact (proj1 (New_orchestrator_is_sane _ o E)).
Defined.

(** X10.  [New] panics with the message of the first setting that is not
    acceptable; the settings after it are not looked at. *)
Theorem New_panics_on_first_bad_setting (good : list Setting) (bad : Setting)
    (rest : list Setting) :
  Forall (fun s => accepted s = true) good →
  accepted bad = false →
  New (List.map asOption (good ++ bad :: rest)) = Panic (complaint bad).
Proof.
  unfold New. generalize (mkOrchestrator ∅ ∅ (5 * Second) 0 0).
  intros o0 Hgood Hbad. revert o0.
  induction Hgood as [|s good Hs _ IH]; simpl; intros o0.
  - destruct bad as [t|n|n]; simpl in Hbad |- *;
      unfold WithTimeout, WithMaxConcurrency, WithMaxBatchSize.
    + apply Z.ltb_ge in Hbad. by rewrite (proj2 (Z.leb_le _ _) Hbad).
    + apply Z.leb_gt in Hbad. by rewrite (proj2 (Z.ltb_lt _ _) Hbad).
    + apply Z.leb_gt in Hbad. by rewrite (proj2 (Z.ltb_lt _ _) Hbad).
  - destruct (applyOptions_accepted [s] (Forall_cons_2 _ _ _ Hs (Forall_nil_2 _)) o0)
      as [o1 Ho1].
    simpl in Ho1. destruct (asOption s o0) as [o1'|msg]; [|done]. apply IH.
Qed.

Lemma New_panics_on_first_bad_setting_witness :
  New (List.map asOption [SetMaxConcurrency 1; SetTimeout 0; SetMaxBatchSize (-1)])
  = Panic "timeout must be positive".
Proof.
  apply (New_panics_on_first_bad_setting [SetMaxConcurrency 1] (SetTimeout 0)
           [SetMaxBatchSize (-1)]).
  - constructor; [reflexivity|constructor].
  - reflexivity.
Defined.

(** ** [RegisterRecipe] *)

(** What a task does depends on the orchestrator through three things
    only: the handler and the option registered under the recipe of its
    request, and the default timeout. *)
Lemma runTask_ext o o' ctx req since :
  registry o !! Recipe req = registry o' !! Recipe req →
  recipeOptions o !! Recipe req = recipeOptions o' !! Recipe req →
  timeout o = timeout o' →
  runTask o ctx req since = runTask o' ctx req since.
Proof.
  intros Hreg Hopt Ht.
  unfold runTask, executeRequest, safeExecute, resolveTimeout.
  by rewrite Hreg, Hopt, Ht.
Qed.

(** X11.  Registering a handler under a non-empty name succeeds; a lookup
    of that name then finds the handler, whatever was registered under it
    before; the option of the name is the first option given when it is
    not nil, and otherwise stays what it was; every other name keeps its
    handler and its option; timeout and limits are untouched. *)
Theorem RegisterRecipe_registers
    (o : Orchestrator) (name : string) (h : Handler) (opts : list (option RecipeOption)) :
  name ≠ "" →
  ∃ o', RegisterRecipe o name (Some h) opts = Done o' ∧
        registry o' !! name = Some h ∧
        recipeOptions o' !! name =
          match opts with
          | Some opt :: _ => Some opt
          | _ => recipeOptions o !! name
          end ∧
        (∀ other, other ≠ name →
           registry o' !! other = registry o !! other ∧
           recipeOptions o' !! other = recipeOptions o !! other) ∧
        timeout o' = timeout o ∧ maxConcurrency o' = maxConcurrency o ∧
        maxBatchSize o' = maxBatchSize o.
Proof.
  intros Hne. unfold RegisterRecipe.
  destruct (String.eqb_spec name "") as [->|_]; [done|].
  eexists. split; [reflexivity|]. simpl. split_and!; try done.
  - apply lookup_insert_eq.
  - destruct opts as [|[opt|] ?]; try done. apply lookup_insert_eq.
  - intros other Hother. split; [by apply lookup_insert_ne|].
    destruct opts as [|[opt|] ?]; try done. by apply lookup_insert_ne.
Qed.

Lemma RegisterRecipe_registers_witness :
  ∃ o', RegisterRecipe demo "echo" (Some ok) [] = Done o' ∧
        registry o' !! "echo" = Some ok.
Proof.
  destruct (RegisterRecipe_registers demo "echo" ok []) as (o' & Hreg & Hlook & _).
  - discriminate.
  - exists o'. split; assumption.
Defined.

(** X12.  Registering a recipe again without an option replaces the
    handler but keeps the option of the earlier registration: the tasks
    of the recipe run the new handler under the old timeout. *)
Theorem reregistration_keeps_timeout
    (o : Orchestrator) (name : string) (h1 h2 : Handler) (opt : RecipeOption)
    (req : SubRequest) :
  name ≠ "" →
  0 < Timeout opt →
  Recipe req = name →
  ∃ o1 o2,
    RegisterRecipe o name (Some h1) [Some opt] = Done o1 ∧
    RegisterRecipe o1 name (Some h2) [] = Done o2 ∧
    registry o2 !! Recipe req = Some h2 ∧
    resolveTimeout o2 req = Timeout opt.
Proof.
  intros Hne Hpos Hreq. unfold RegisterRecipe.
  destruct (String.eqb_spec name "") as [->|_]; [done|].
  eexists _, _. split_and!; try reflexivity; simpl.
  - rewrite Hreq. apply lookup_insert_eq.
  - apply resolveTimeout_override; [|done]. simpl. rewrite Hreq. apply lookup_insert_eq.
Qed.

Lemma reregistration_keeps_timeout_witness :
  ∃ o1 o2,
    RegisterRecipe demo "slow" (Some slow) [Some (mkRecipeOption (30 * Second))] = Done o1 ∧
    RegisterRecipe o1 "slow" (Some ok) [] = Done o2 ∧
    resolveTimeout o2 (mkSubRequest "1" "tenant-a" "slow" None) = 30 * Second.
Proof.
  destruct (reregistration_keeps_timeout demo "slow" slow ok
              (mkRecipeOption (30 * Second)) (mkSubRequest "1" "tenant-a" "slow" None))
    as (o1 & o2 & H1 & H2 & _ & Ht).
  - discriminate.
  - reflexivity.
  - reflexivity.
  - exists o1, o2. split_and!; assumption.
Defined.

(** X13.  A registration changes nothing for the requests of the other
    recipes: their tasks do exactly what they did before. *)
Theorem RegisterRecipe_leaves_other_recipes
    (o o' : Orchestrator) (name : string) (h : option Handler)
    (opts : list (option RecipeOption)) (ctx : Context) (req : SubRequest) (since : Z) :
  RegisterRecipe o name h opts = Done o' →
  Recipe req ≠ name →
  runTask o' ctx req since = runTask o ctx req since.
Proof.
  intros Hreg Hother. unfold RegisterRecipe in Hreg.
  destruct (String.eqb name ""); [done|]. destruct h as [h|]; [|done].
  inversion Hreg; subst; clear Hreg. apply runTask_ext; simpl.
  - by apply lookup_insert_ne.
  - destruct opts as [|[opt|] ?]; try done. by apply lookup_insert_ne.
  - done.
Qed.

Lemma RegisterRecipe_leaves_other_recipes_witness :
  ∃ o', RegisterRecipe demo "other" (Some ok) [] = Done o' ∧
        runTask o' Background (mkSubRequest "1" "a" "echo" (Some (AString "hi"))) 0
        = runTask demo Background (mkSubRequest "1" "a" "echo" (Some (AString "hi"))) 0.
Proof.
  destruct (RegisterRecipe demo "other" (Some ok) []) as [o'|msg] eqn:E;
    [|vm_compute in E; discriminate].
  exists o'. split; [reflexivity|].
  apply (RegisterRecipe_leaves_other_recipes demo o' "other" (Some ok) [] _ _ _ E).
  discriminate.
Defined.

(** ** What a task answers *)

(** X14.  A registered handler that returns data and no error, on a valid
    request, the deadline of the task not being passed when it returns:
    the response is 200 with that data, no error, and the ID and tenant
    of the request.  The task calls [OnStart], the handler (with the
    payload of the request) and [OnComplete] (with that very response
    and the duration it carries), in this order and once each, [OnPanic]
    not at all, and then stores the response. *)
Theorem executeRequest_success
    (o : Orchestrator) (ctx : Context) (req : SubRequest) (since : Z)
    (h : Handler) (data : option Any) :
  invalid req = false →
  registry o !! Recipe req = Some h →
  let tctx := taskContext o ctx req since in
  let elapsed := Z.of_N (run_elapsed (h tctx (Payload req) since)) in
  run_outcome (h tctx (Payload req) since) = Returned data None →
  ctxErr tctx (since + elapsed) ≠ Some DeadlineExceeded →
  let resp := fst (runTask o ctx req since) in
  rID resp = ID req ∧ rStatus resp = 200 ∧ rData resp = data ∧
  rError resp = None ∧ rTenantID resp = TenantID req ∧
  List.map snd (ts_trace (snd (runTask o ctx req since))) =
    [EvValidate true;
     EvWithTimeout (resolveTimeout o req);
     EvOnStart tctx req;
     EvHandler tctx (Payload req);
     EvOnComplete tctx req resp (rDuration resp);
     EvStore resp].
Proof.
  intros Hinv Hreg tctx elapsed Hout Hlive resp. unfold resp. clear resp.
  rewrite (runTask_registered _ _ _ _ h) by done. cbv zeta.
  fold tctx. rewrite Hout. fold elapsed.
  destruct (ctxErr tctx (since + elapsed)) as [[]|]; try done; simpl; split_and!; done.
Qed.

Lemma executeRequest_success_witness :
  rStatus (fst (runTask demo Background
                  (mkSubRequest "1" "a" "echo" (Some (AString "hi"))) 0)) = 200 ∧
  rData (fst (runTask demo Background
                (mkSubRequest "1" "a" "echo" (Some (AString "hi"))) 0))
    = Some (AString "hi").
Proof.
  destruct (executeRequest_success demo Background
              (mkSubRequest "1" "a" "echo" (Some (AString "hi"))) 0 echo
              (Some (AString "hi")))
    as (_ & Hst & Hdata & _).
  - reflexivity.
  - reflexivity.
  - reflexivity.
  - vm_compute. discriminate.
  - split; assumption.
Defined.

(** X15.  A registered handler that returns an error, on a valid request,
    the deadline of the task not being passed when it returns.  If the
    [Error()] method of the error gives a text, the response is 500 /
    RECIPE_EXECUTION with that text as message, and without data, even
    if the handler returned some; [OnPanic] is not called and
    [OnComplete] is, once.  If [Error()] panics, the task dies: it
    neither completes nor stores a response. *)
Theorem executeRequest_handler_error
    (o : Orchestrator) (ctx : Context) (req : SubRequest) (since : Z)
    (h : Handler) (data : option Any) (e : ErrorValue) :
  invalid req = false →
  registry o !! Recipe req = Some h →
  let tctx := taskContext o ctx req since in
  let elapsed := Z.of_N (run_elapsed (h tctx (Payload req) since)) in
  run_outcome (h tctx (Payload req) since) = Returned data (Some e) →
  ctxErr tctx (since + elapsed) ≠ Some DeadlineExceeded →
  let resp := fst (runTask o ctx req since) in
  let own := ts_trace (snd (runTask o ctx req since)) in
  match e with
  | errorText msg =>
      rID resp = ID req ∧ rStatus resp = 500 ∧ rData resp = None ∧
      rError resp = Some (mkError "RECIPE_EXECUTION" msg None) ∧
      rTenantID resp = TenantID req ∧
      dies o ctx req since = false ∧
      calls isOnPanic own = 0%nat ∧ calls isOnComplete own = 1%nat
  | errorBroken =>
      dies o ctx req since = true ∧
      calls isOnComplete own = 0%nat ∧ calls isStore own = 0%nat
  end.
Proof.
  intros Hinv Hreg tctx elapsed Hout Hlive resp own. unfold resp, own, dies. clear resp own.
  rewrite (runTask_registered _ _ _ _ h), (ending_registered _ _ _ _ h) by done. cbv zeta.
  fold tctx. rewrite Hout. fold elapsed.
  destruct e as [msg|];
    destruct (ctxErr tctx (since + elapsed)) as [[]|]; try done; simpl; split_and!; done.
Qed.

(** A handler that fails at once. *)
Lemma executeRequest_handler_error_witness :
  let failing : Handler :=
    fun _ _ _ => mkRun (Returned None (Some (errorText "test error"))) 0 in
  let o := mkOrchestrator {[ "error" := failing ]} ∅ (5 * Second) 0 0 in
  rError (fst (runTask o Background (mkSubRequest "2" "tenant-b" "error" None) 0)) =
    Some (mkError "RECIPE_EXECUTION" "test error" None).
Proof.
  intros failing o.
  destruct (executeRequest_handler_error o Background
              (mkSubRequest "2" "tenant-b" "error" None) 0 failing None
              (errorText "test error"))
    as (_ & _ & _ & Herr & _).
  - reflexivity.
  - reflexivity.
  - reflexivity.
  - vm_compute. discriminate.
  - exact Herr.
Defined.

(** X16.  When the deadline of the task's context has passed by the time
    the handler is over, and the handler did not end the goroutine, the
    response of a valid request for a registered recipe is 504 / TIMEOUT,
    without data, whether the handler returned or panicked: what it
    returned is dropped, and the text of its error is not asked for. *)
Theorem executeRequest_deadline_exceeded
    (o : Orchestrator) (ctx : Context) (req : SubRequest) (since : Z) (h : Handler) :
  invalid req = false →
  registry o !! Recipe req = Some h →
  let tctx := taskContext o ctx req since in
  let elapsed := Z.of_N (run_elapsed (h tctx (Payload req) since)) in
  run_outcome (h tctx (Payload req) since) ≠ Exited →
  ctxErr tctx (since + elapsed) = Some DeadlineExceeded →
  let resp := fst (runTask o ctx req since) in
  rID resp = ID req ∧ rStatus resp = 504 ∧ rData resp = None ∧
  rError resp = Some (mkError "TIMEOUT" "recipe execution timed out" None) ∧
  rTenantID resp = TenantID req ∧
  dies o ctx req since = false.
Proof.
  intros Hinv Hreg tctx elapsed Hout Hdead resp. unfold resp, dies. clear resp.
  rewrite (runTask_registered _ _ _ _ h), (ending_registered _ _ _ _ h) by done. cbv zeta.
  fold tctx. fold elapsed. rewrite Hdead.
  destruct (run_outcome _) as [data [[msg|]|]|r|]; try done; simpl; split_and!; done.
Qed.

Lemma executeRequest_deadline_exceeded_witness :
  let o := mkOrchestrator {[ "slow" := slow ]} ∅ (50 * Millisecond) 0 0 in
  rStatus (fst (runTask o Background (mkSubRequest "1" "tenant-a" "slow" None) 0)) = 504.
Proof.
  intros o.
  destruct (executeRequest_deadline_exceeded o Background
              (mkSubRequest "1" "tenant-a" "slow" None) 0 slow)
    as (_ & Hst & _).
  - reflexivity.
  - reflexivity.
  - discriminate.
  - reflexivity.
  - exact Hst.
Defined.

(** X17.  Under a caller's context that is never cancelled, a valid
    request for a registered recipe whose handler takes at least the
    timeout of the task, and does not end the goroutine, is answered 504;
    the timeout of the task is the recipe's own when one is set and
    positive, the default one otherwise. *)
Theorem timeout_when_handler_outlasts_it
    (o : Orchestrator) (ctx : Context) (req : SubRequest) (since : Z) (h : Handler) :
  invalid req = false →
  registry o !! Recipe req = Some h →
  ctx_cancel_at ctx = None →
  let tctx := taskContext o ctx req since in
  let elapsed := Z.of_N (run_elapsed (h tctx (Payload req) since)) in
  run_outcome (h tctx (Payload req) since) ≠ Exited →
  resolveTimeout o req ≤ elapsed →
  rStatus (fst (runTask o ctx req since)) = 504 ∧
  (∀ opt, recipeOptions o !! Recipe req = Some opt → 0 < Timeout opt →
     resolveTimeout o req = Timeout opt) ∧
  ((∀ opt, recipeOptions o !! Recipe req = Some opt → Timeout opt ≤ 0) →
     resolveTimeout o req = timeout o).
Proof.
  intros Hinv Hreg Hc tctx elapsed Hout Hlong.
  split_and!; [|apply resolveTimeout_override|apply resolveTimeout_default].
  rewrite (runTask_registered _ _ _ _ h) by done. cbv zeta.
  fold tctx. fold elapsed.
  assert (Hdead : ctxErr tctx (since + elapsed) = Some DeadlineExceeded).
  { unfold ctxErr, reached, tctx, taskContext, context_WithTimeout; simpl. rewrite Hc.
    destruct (ctx_deadline ctx) as [p|].
    - destruct (Z.leb_spec (Z.min p (since + resolveTimeout o req)) (since + elapsed));
        [done|lia].
    - destruct (Z.leb_spec (since + resolveTimeout o req) (since + elapsed)); [done|lia]. }
  rewrite Hdead.
  destruct (run_outcome _) as [data [[msg|]|]|r|]; try done.
Qed.

(** The default timeout is 50 ms, and the handler takes a second. *)
Lemma timeout_when_handler_outlasts_it_witness :
  let o := mkOrchestrator {[ "slow" := slow ]} ∅ (50 * Millisecond) 0 0 in
  rStatus (fst (runTask o Background (mkSubRequest "1" "tenant-a" "slow" None) 0)) = 504.
Proof.
  intros o.
  destruct (timeout_when_handler_outlasts_it o Background
              (mkSubRequest "1" "tenant-a" "slow" None) 0 slow) as (Hst & _).
  - reflexivity.
  - reflexivity.
  - reflexivity.
  - discriminate.
  - vm_compute. discriminate.
  - exact Hst.
Defined.

(** X18.  Cancellation is not a timeout.  When the caller cancels the
    context before the deadline of the task, the response of a valid
    request for a registered recipe is never 504: it is what the handler's
    own result makes it, 200 with the data if it returned without error,
    however long the handler went on after the cancellation. *)
Theorem cancellation_is_not_timeout
    (o : Orchestrator) (ctx : Context) (req : SubRequest) (since : Z) (h : Handler)
    (c : Z) :
  invalid req = false →
  registry o !! Recipe req = Some h →
  ctx_cancel_at ctx = Some c →
  c < since + resolveTimeout o req →
  (∀ p, ctx_deadline ctx = Some p → c < p) →
  let tctx := taskContext o ctx req since in
  rStatus (fst (runTask o ctx req since)) ≠ 504 ∧
  ∀ data, run_outcome (h tctx (Payload req) since) = Returned data None →
    rStatus (fst (runTask o ctx req since)) = 200 ∧
    rData (fst (runTask o ctx req since)) = data.
Proof.
  intros Hinv Hreg Hc Hbefore Hparent tctx.
  rewrite (runTask_registered _ _ _ _ h) by done. cbv zeta. fold tctx.
  set (done := since + Z.of_N (run_elapsed (h tctx (Payload req) since))).
  assert (Hnot : ctxErr tctx done ≠ Some DeadlineExceeded).
  { unfold ctxErr, reached, tctx, taskContext, context_WithTimeout; simpl. rewrite Hc.
    destruct (ctx_deadline ctx) as [p|] eqn:Hp.
    - specialize (Hparent p eq_refl).
      destruct (Z.min p (since + resolveTimeout o req) <=? done) eqn:E1,
               (c <=? done) eqn:E2; try done.
      + destruct (c <? Z.min p (since + resolveTimeout o req)) eqn:E3; [done|].
        apply Z.ltb_ge in E3. lia.
      + apply Z.leb_le in E1. apply Z.leb_gt in E2. lia.
    - destruct (since + resolveTimeout o req <=? done) eqn:E1,
               (c <=? done) eqn:E2; try done.
      + destruct (c <? since + resolveTimeout o req) eqn:E3; [done|].
        apply Z.ltb_ge in E3. lia.
      + apply Z.leb_le in E1. apply Z.leb_gt in E2. lia. }
  split.
  - destruct (ctxErr tctx done) as [[]|]; try done;
      destruct (run_outcome _) as [data [[msg|]|]|r|]; simpl; discriminate.
  - intros data Hout. rewrite Hout.
    destruct (ctxErr tctx done) as [[]|]; done.
Qed.

Lemma cancellation_is_not_timeout_witness :
  rStatus (fst (runTask singleSlot cancelledSoon
                  (mkSubRequest "2" "tenant-b" "slow" None) 0)) = 200.
Proof.
  destruct (cancellation_is_not_timeout singleSlot cancelledSoon
              (mkSubRequest "2" "tenant-b" "slow" None) 0 slow (100 * Millisecond))
    as (_ & H200).
  - reflexivity.
  - reflexivity.
  - reflexivity.
  - reflexivity.
  - intros p Hp. discriminate.
  - exact (proj1 (H200 (Some (AString "ok")) eq_refl)).
Defined.

(** X19.  Which status a task that does not die leaves in its slot: 400
    exactly for the requests with an empty field; 404 exactly for the
    valid requests whose recipe is not registered; one of 200, 500, 504
    exactly for the valid requests of registered recipes whose handler
    does not end the goroutine; and 0, the status of the zero [Response],
    exactly for those whose handler does. *)
Theorem executeRequest_status_table
    (o : Orchestrator) (ctx : Context) (req : SubRequest) (since : Z) :
  dies o ctx req since = false →
  let st := rStatus (fst (runTask o ctx req since)) in
  let tctx := taskContext o ctx req since in
  (st = 400 ↔ invalid req = true) ∧
  (st = 404 ↔ invalid req = false ∧ registry o !! Recipe req = None) ∧
  (st = 200 ∨ st = 500 ∨ st = 504 ↔
   invalid req = false ∧
   ∃ h : Handler, registry o !! Recipe req = Some h ∧
                  run_outcome (h tctx (Payload req) since) ≠ Exited) ∧
  (st = 0 ↔
   invalid req = false ∧
   ∃ h : Handler, registry o !! Recipe req = Some h ∧
                  run_outcome (h tctx (Payload req) since) = Exited).
Proof.
  intros Halive st tctx. unfold st. clear st.
  destruct (invalid req) eqn:Hinv.
  { rewrite runTask_invalid by done. simpl.
    split_and!; split;
      first [done | lia | intros [? ?]; done | intros [?|[?|?]]; lia]. }
  destruct (registry o !! Recipe req) as [h|] eqn:Hreg.
  - unfold dies in Halive. rewrite (ending_registered _ _ _ _ h) in Halive by done.
    rewrite (runTask_registered _ _ _ _ h) by done. cbv zeta in *. fold tctx in Halive |- *.
    destruct (run_outcome (h tctx (Payload req) since)) as [data [[msg|]|]|r|] eqn:Hout;
      destruct (ctxErr _ _) as [[]|]; simpl in *; try discriminate Halive;
      split_and!; split;
      first [ done | lia
            | intros [_ (h' & [= <-] & Hne)]; first [done | rewrite Hout in Hne; done]
            | intros [? [? [? ?]]]; done
            | intros [? ?]; done
            | intros _; split; [done|]; exists h; split; [done|]; by rewrite ?Hout
            | intros [?|[?|?]]; lia
            | intros _; lia ].
  - rewrite runTask_not_found by done. simpl.
    split_and!; split;
      first [done | lia | intros [?|[?|?]]; lia | intros [_ (? & ? & _)]; done].
Qed.

Lemma executeRequest_status_table_witness :
  rStatus (fst (runTask withQuitter Background quitRequest 0)) = 0.
Proof.
  destruct (executeRequest_status_table withQuitter Background quitRequest 0)
    as (_ & _ & _ & Hzero).
  - reflexivity.
  - apply Hzero. split; [reflexivity|]. exists quitter. split; reflexivity.
Defined.

(** ** Hooks and responses in a batch *)

Lemma runTask_calls o ctx req since :
  let own := ts_trace (snd (runTask o ctx req since)) in
  let cut := exits o ctx req since || dies o ctx req since in
  calls isOnStart own = (if invalid req then 0 else 1)%nat ∧
  calls isOnComplete own = (if invalid req || cut then 0 else 1)%nat ∧
  calls isStore own = (if cut then 0 else 1)%nat ∧
  calls isHandler own =
    (if invalid req then 0
     else match registry o !! Recipe req with Some _ => 1 | None => 0 end)%nat ∧
  (calls isOnPanic own ≤ calls isHandler own)%nat ∧
  calls isAcquire own = 0%nat ∧ calls isRelease own = 0%nat.
Proof.
  intros own cut. unfold own, cut, exits, dies. clear own cut.
  destruct (invalid req) eqn:Hinv.
  { rewrite runTask_invalid, ending_invalid by done. simpl. split_and!; done. }
  destruct (registry o !! Recipe req) as [h|] eqn:Hreg.
  - rewrite (runTask_registered _ _ _ _ h), (ending_registered _ _ _ _ h) by done.
    cbv zeta. unfold panicCalls.
    destruct (run_outcome _) as [data [[msg|]|]|r|]; simpl;
      try (destruct (ctxErr _ _) as [[]|]; simpl);
      split_and!; try done; try (unfold calls; simpl; lia).
  - rewrite runTask_not_found, ending_not_found by done. simpl.
    split_and!; try done; try (unfold calls; simpl; lia).
Qed.

(** X20.  In a batch within the size limit that has returned, each task
    ran from some instant after the call and did not die.  It called
    [OnStart] once if its request is valid, and not if it is not; it
    called [OnComplete] once, and stored its response once, unless the
    request is not valid (no [OnComplete]) or its handler ended the
    goroutine (neither); it called a handler once if the request is valid
    and its recipe registered, and not otherwise; it called [OnPanic] at
    most as often as the handler; and it took a slot and gave it back
    once each when there is a concurrency limit, never when there is
    none. *)
Theorem hooks_once_per_valid_request
    (o : Orchestrator) (ctx : Context) (now : Z) (batch : list SubRequest)
    (sched : list Action) (R : list Response) (tr : list (nat * (Z * Event)))
    (i : nat) (req : SubRequest) :
  tooLarge o batch = false →
  ExecuteBatch o ctx now batch sched = Some (R, tr) →
  batch !! i = Some req →
  let own := project i tr in
  ∃ since,
    now ≤ since ∧ dies o ctx req since = false ∧
    calls isOnStart own = (if invalid req then 0 else 1)%nat ∧
    calls isOnComplete own =
      (if invalid req || exits o ctx req since then 0 else 1)%nat ∧
    calls isStore own = (if exits o ctx req since then 0 else 1)%nat ∧
    calls isHandler own =
      (if invalid req then 0
       else match registry o !! Recipe req with Some _ => 1 | None => 0 end)%nat ∧
    (calls isOnPanic own ≤ calls isHandler own)%nat ∧
    calls isAcquire own = (if 0 <? maxConcurrency o then 1%nat else 0%nat) ∧
    calls isRelease own = (if 0 <? maxConcurrency o then 1%nat else 0%nat).
Proof.
  intros Hsmall Hexec Hb own. unfold own. clear own.
  destruct (ExecuteBatch_tasks_alive _ _ _ _ _ _ _ Hsmall Hexec) as [_ Htasks].
  destruct (Htasks i req Hb) as (since & Hs & _ & Htr & Hd).
  exists since. split; [done|]. split; [done|].
  destruct (runTask_calls o ctx req since) as (H1 & H2 & H3 & H4 & H5 & H6 & H7).
  rewrite Hd, orb_false_r in H2, H3.
  assert (Hsum : ∀ p, calls p (project i tr) =
            (calls p (acquired o since) + calls p (ts_trace (snd (runTask o ctx req since)))
             + calls p (released o (ts_now (snd (runTask o ctx req since)))))%nat).
  { intros p. rewrite Htr, !calls_app. lia. }
  rewrite !Hsum, H1, H2, H3, H4, H6, H7. clear Hsum Htr.
  unfold acquired, released, limited.
  destruct (0 <? maxConcurrency o); unfold calls in *; simpl; split_and!; lia.
Qed.

Lemma hooks_once_per_valid_request_witness :
  ∃ since,
    calls isOnStart
      (project 1 (snd (default ([], [])
                         (ExecuteBatch oneSlot Background 0 twoJobs
                            (inOrder oneSlot Background 0 0 twoJobs))))) = 1%nat ∧
    0 ≤ since.
Proof.
  destruct (ExecuteBatch oneSlot Background 0 twoJobs
              (inOrder oneSlot Background 0 0 twoJobs)) as [[R tr]|] eqn:E;
    [|vm_compute in E; discriminate].
  destruct (hooks_once_per_valid_request oneSlot Background 0 twoJobs _ R tr 1
              (mkSubRequest "2" "tenant-a" "work" None) eq_refl E eq_refl)
    as (since & Hs & _ & Hstart & _).
  exists since. split; [exact Hstart | exact Hs].
Defined.

Lemma runTask_hook_arguments o ctx req since t e :
  In (t, e) (ts_trace (snd (runTask o ctx req since))) →
  match e with
  | EvOnStart _ rq => rq = req
  | EvHandler _ payload => payload = Payload req
  | EvOnPanic _ rq _ => rq = req
  | EvOnComplete _ rq rs d =>
      rq = req ∧ rs = fst (runTask o ctx req since) ∧ d = rDuration rs
  | _ => True
  end.
Proof.
  destruct (invalid req) eqn:Hinv.
  { rewrite runTask_invalid by done. simpl.
    intros [[= <- <-] | [[= <- <-] | []]]; done. }
  destruct (registry o !! Recipe req) as [h|] eqn:Hreg.
  - rewrite (runTask_registered _ _ _ _ h) by done. cbv zeta. unfold panicCalls.
    destruct (run_outcome _) as [data [[msg|]|]|r|]; simpl;
      try (destruct (ctxErr _ _) as [[]|]; simpl); intros Hin;
      repeat (destruct Hin as [[= <- <-] | Hin]; [done|]); destruct Hin.
  - rewrite runTask_not_found by done. simpl. intros Hin.
    repeat (destruct Hin as [[= <- <-] | Hin]; [done|]). destruct Hin.
Qed.

(** X21.  In a batch within the size limit, the hooks of a task are
    called with the request of that task; the handler with its payload;
    and [OnComplete] with the very response the caller finds at the index
    of the request, and with the duration that response carries. *)
Theorem hooks_get_request_and_response
    (o : Orchestrator) (ctx : Context) (now : Z) (batch : list SubRequest)
    (sched : list Action) (R : list Response) (tr : list (nat * (Z * Event)))
    (i : nat) (req : SubRequest) (t : Z) (e : Event) :
  tooLarge o batch = false →
  ExecuteBatch o ctx now batch sched = Some (R, tr) →
  batch !! i = Some req →
  In (t, e) (project i tr) →
  match e with
  | EvOnStart _ rq => rq = req
  | EvHandler _ payload => payload = Payload req
  | EvOnPanic _ rq _ => rq = req
  | EvOnComplete _ rq rs d => rq = req ∧ R !! i = Some rs ∧ d = rDuration rs
  | _ => True
  end.
Proof.
  intros Hsmall Hexec Hb Hin.
  destruct (ExecuteBatch_tasks _ _ _ _ _ _ _ Hsmall Hexec) as [_ Htasks].
  destruct (Htasks i req Hb) as (since & _ & Hres & Htr).
  rewrite Htr in Hin. apply in_app_or in Hin as [Hin | Hin].
  { unfold acquired in Hin. destruct (limited o); [|done].
    destruct Hin as [[= <- <-] | []]. done. }
  apply in_app_or in Hin as [Hin | Hin].
  - pose proof (runTask_hook_arguments _ _ _ _ _ _ Hin) as Harg.
    destruct e; try done. destruct Harg as (-> & -> & ->). done.
  - unfold released in Hin. destruct (limited o); [|done].
    destruct Hin as [[= <- <-] | []]. done.
Qed.

Lemma hooks_get_request_and_response_witness :
  ∃ R tr,
    ExecuteBatch demo Background 0 demoBatch (inOrder demo Background 0 0 demoBatch)
      = Some (R, tr) ∧
    R !! 1%nat = Some (notFoundResponse missing).
Proof.
  destruct (ExecuteBatch demo Background 0 demoBatch
              (inOrder demo Background 0 0 demoBatch)) as [[R tr]|] eqn:E;
    [|vm_compute in E; discriminate].
  exists R, tr. split; [reflexivity|].
  refine (proj1 (proj2 (hooks_get_request_and_response demo Background 0 demoBatch _ R tr 1
            missing 0 (EvOnComplete (taskContext demo Background missing 0) missing
                         (notFoundResponse missing) 0) eq_refl E eq_refl _))).
  vm_compute in E. inversion E; subst. vm_compute. do 3 right. left. reflexivity.
Defined.

Lemma runTask_data_duration o ctx req since :
  let resp := fst (runTask o ctx req since) in
  (rStatus resp ≠ 200 → rData resp = None) ∧ 0 ≤ rDuration resp ∧
  (∀ e, rError resp = Some e → Details e = None).
Proof.
  intros resp. unfold resp. clear resp.
  destruct (invalid req) eqn:Hinv.
  { rewrite runTask_invalid by done. simpl. split_and!; try done. by intros e [= <-]. }
  destruct (registry o !! Recipe req) as [h|] eqn:Hreg.
  - rewrite (runTask_registered _ _ _ _ h) by done. cbv zeta.
    destruct (ctxErr _ _) as [[]|]; destruct (run_outcome _) as [data [[msg|]|]|r|]; simpl;
      split_and!; try done; try lia; by intros e [= <-].
  - rewrite runTask_not_found by done. simpl. split_and!; try done. by intros e [= <-].
Qed.

(** X22.  In every response [ExecuteBatch] returns, data come with status
    200 only, the duration is not negative, and the error, when there is
    one, has no details. *)
Theorem responses_carry_data_on_success_only
    (o : Orchestrator) (ctx : Context) (now : Z) (batch : list SubRequest)
    (sched : list Action) (R : list Response) (tr : list (nat * (Z * Event)))
    (resp : Response) :
  ExecuteBatch o ctx now batch sched = Some (R, tr) →
  resp ∈ R →
  (rStatus resp ≠ 200 → rData resp = None) ∧
  0 ≤ rDuration resp ∧
  (∀ e, rError resp = Some e → Details e = None).
Proof.
  intros Hexec Hin. apply list_elem_of_lookup in Hin as [i Hi].
  destruct (tooLarge o batch) eqn:Et.
  - unfold ExecuteBatch in Hexec. rewrite Et in Hexec. inversion Hexec; subst.
    rewrite lookup_map in Hi. destruct (batch !! i) as [req|]; [|done].
    inversion Hi; subst. simpl. split_and!; try done. by intros e [= <-].
  - destruct (ExecuteBatch_tasks _ _ _ _ _ _ _ Et Hexec) as [Hlen Htasks].
    assert (Hlt : (i < length batch)%nat).
    { rewrite <- Hlen. eapply lookup_lt_Some; eauto. }
    destruct (lookup_lt_is_Some_2 _ _ Hlt) as [req Hb].
    destruct (Htasks i req Hb) as (since & _ & Hres & _).
    assert (resp = fst (runTask o ctx req since)) as -> by congruence.
    apply runTask_data_duration.
Qed.

Lemma responses_carry_data_on_success_only_witness :
  rData (notFoundResponse missing) = None.
Proof.
  destruct (ExecuteBatch demo Background 0 demoBatch
              (inOrder demo Background 0 0 demoBatch)) as [[R tr]|] eqn:E;
    [|vm_compute in E; discriminate].
  refine (proj1 (responses_carry_data_on_success_only demo Background 0 demoBatch _ R tr
                   (notFoundResponse missing) E _) _).
  - vm_compute in E. inversion E; subst. apply list_elem_of_In. right. left. reflexivity.
  - discriminate.
Defined.

(** X23.  A response of status 413 is returned exactly when a positive
    batch limit is set and the batch is longer than it; so a batch as
    long as the limit is run, and so is any batch when the limit is 0. *)
Theorem status_413_iff_over_limit
    (o : Orchestrator) (ctx : Context) (now : Z) (batch : list SubRequest)
    (sched : list Action) (R : list Response) (tr : list (nat * (Z * Event)))
    (resp : Response) :
  ExecuteBatch o ctx now batch sched = Some (R, tr) →
  resp ∈ R →
  (rStatus resp = 413 ↔
   0 < maxBatchSize o ∧ maxBatchSize o < Z.of_nat (length batch)).
Proof.
  intros Hexec Hin. apply list_elem_of_lookup in Hin as [i Hi].
  destruct (tooLarge o batch) eqn:Et.
  - pose proof Et as Et'. unfold tooLarge in Et'.
    apply andb_true_iff in Et' as [H1 H2]. apply Z.ltb_lt in H1, H2.
    unfold ExecuteBatch in Hexec. rewrite Et in Hexec. inversion Hexec; subst.
    rewrite lookup_map in Hi. destruct (batch !! i) as [req|]; [|done].
    inversion Hi; subst. simpl. done.
  - assert (Hnot : ¬ (0 < maxBatchSize o ∧ maxBatchSize o < Z.of_nat (length batch))).
    { intros [H1 H2]. unfold tooLarge in Et.
      by rewrite (proj2 (Z.ltb_lt _ _) H1), (proj2 (Z.ltb_lt _ _) H2) in Et. }
    destruct (ExecuteBatch_tasks _ _ _ _ _ _ _ Et Hexec) as [Hlen Htasks].
    assert (Hlt : (i < length batch)%nat).
    { rewrite <- Hlen. eapply lookup_lt_Some; eauto. }
    destruct (lookup_lt_is_Some_2 _ _ Hlt) as [req Hb].
    destruct (Htasks i req Hb) as (since & _ & Hres & _).
    assert (resp = fst (runTask o ctx req since)) as -> by congruence.
    destruct (runTask_wellFormed o ctx req since)
      as [[_ Hz] | (_ & _ & _ & _ & [[Hst _] | [Hst _]])].
    + rewrite Hz. simpl. split; [lia | tauto].
    + split; [rewrite Hst; done | tauto].
    + rewrite !elem_of_cons, elem_of_nil in Hst. split; [lia | tauto].
Qed.

(** Ten requests against a limit of ten. *)
Lemma status_413_iff_over_limit_witness :
  ∃ R tr,
    ExecuteBatch limitTen Background 0 (take 10 twenty)
      (inOrder limitTen Background 0 0 (take 10 twenty)) = Some (R, tr) ∧
    ∀ resp, resp ∈ R → rStatus resp ≠ 413.
Proof.
  destruct (ExecuteBatch limitTen Background 0 (take 10 twenty)
              (inOrder limitTen Background 0 0 (take 10 twenty))) as [[R tr]|] eqn:E;
    [|vm_compute in E; discriminate].
  exists R, tr. split; [reflexivity|]. intros resp Hin Hst.
  apply (status_413_iff_over_limit limitTen Background 0 (take 10 twenty) _ R tr resp E Hin)
    in Hst as [_ Hover].
  vm_compute in Hover. discriminate.
Defined.

Lemma run_empty_batch o ctx sched :
  ∀ s s', rt_phase s = [] → run o ctx [] sched s = Some s' →
    rt_phase s' = [] ∧ rt_results s' = rt_results s ∧ rt_trace s' = rt_trace s.
Proof.
  induction sched as [|a sched IH]; simpl; intros s s' Hph Hrun.
  { by inversion Hrun; subst. }
  destruct a as [d|i|i]; simpl in Hrun.
  - apply IH in Hrun; [|done]. by simpl in Hrun.
  - rewrite Hph in Hrun. by destruct i.
  - rewrite Hph in Hrun. by destruct i.
Qed.

(** X24.  An empty batch returns an empty slice, at once (the empty
    schedule does), and without any call of a hook or handler, whatever
    the limits of the orchestrator. *)
Theorem ExecuteBatch_empty_batch
    (o : Orchestrator) (ctx : Context) (now : Z) :
  ExecuteBatch o ctx now [] [] = Some ([], []) ∧
  ∀ sched R tr, ExecuteBatch o ctx now [] sched = Some (R, tr) → R = [] ∧ tr = [].
Proof.
  assert (Hsmall : tooLarge o [] = false).
  { unfold tooLarge. simpl. destruct (0 <? maxBatchSize o) eqn:E; [|done].
    apply Z.ltb_lt in E. simpl. apply Z.ltb_ge. lia. }
  unfold ExecuteBatch. rewrite Hsmall. split; [done|].
  intros sched R tr Hexec.
  destruct (run o ctx [] sched (spawnAll now [])) as [s|] eqn:Erun; [|done].
  destruct (run_empty_batch o ctx sched (spawnAll now []) s eq_refl Erun) as (Hph & Hres & Htr).
  rewrite Hph in Hexec. simpl in Hexec. inversion Hexec; subst.
  by rewrite Hres, Htr.
Qed.

Lemma ExecuteBatch_empty_batch_witness :
  ExecuteBatch limitTen Background 0 [] [Tick 5; Tick 7] = Some ([], []).
Proof.
  destruct (ExecuteBatch limitTen Background 0 [] [Tick 5; Tick 7]) as [[R tr]|] eqn:E;
    [|vm_compute in E; discriminate].
  destruct (proj2 (ExecuteBatch_empty_batch limitTen Background 0) _ R tr E) as [-> ->].
  reflexivity.
Defined.

(** ** The concurrency limit *)







(** ** No deadlock *)











(** The hypothesis is needed: once the task of a handler that returns a
    nil [*Error] has started, no continuation of the schedule lets
    [ExecuteBatch] return. *)
Lemma nil_error_stops_the_batch :
  is_Some (run withNilError Background [nilErrorRequest] [Start 0%nat]
             (spawnAll 0 [nilErrorRequest])) ∧
  ∀ rest, ExecuteBatch withNilError Background 0 [nilErrorRequest]
            ([Start 0%nat] ++ rest) = None.
Proof.
  split; [vm_compute; by eexists|]. intros rest.
  apply (dying_task_never_finishes _ _ _ _ _ 0%nat nilErrorRequest); try done.
  apply nilError_dies.
Qed.

(** ** How a task ends *)

(** X27.  How a task ends is decided by its handler.  The task ends with
    its goroutine unwinding exactly when its request is valid and the
    handler of its recipe calls [runtime.Goexit()]; it dies exactly when
    its request is valid and the handler returns an error whose [Error()]
    panics, the deadline of the task not being passed by then.  In both
    cases the task calls no [OnComplete] and stores nothing, so that its
    slot keeps the zero [Response]; in every other case it stores, as its
    last step, a response with the ID and the tenant of its request. *)
Theorem task_ends_as_its_handler_does
    (o : Orchestrator) (ctx : Context) (req : SubRequest) (since : Z) :
  let tctx := taskContext o ctx req since in
  let resp := fst (runTask o ctx req since) in
  let own := ts_trace (snd (runTask o ctx req since)) in
  (exits o ctx req since = true ↔
   invalid req = false ∧
   ∃ h : Handler, registry o !! Recipe req = Some h ∧
     run_outcome (h tctx (Payload req) since) = Exited) ∧
  (dies o ctx req since = true ↔
   invalid req = false ∧
   ∃ (h : Handler) data, registry o !! Recipe req = Some h ∧
     run_outcome (h tctx (Payload req) since) = Returned data (Some errorBroken) ∧
     ctxErr tctx (since + Z.of_N (run_elapsed (h tctx (Payload req) since)))
       ≠ Some DeadlineExceeded) ∧
  (if exits o ctx req since || dies o ctx req since
   then resp = zeroResponse ∧
        calls isOnComplete own = 0%nat ∧ calls isStore own = 0%nat
   else rID resp = ID req ∧ rTenantID resp = TenantID req ∧
        calls isStore own = 1%nat ∧
        ∃ pre t, own = pre ++ [(t, EvStore resp)]).
Proof.
  intros tctx resp own. unfold tctx, resp, own. clear tctx resp own.
  split; [apply exits_iff|]. split; [apply dies_iff|].
  destruct (runTask_calls o ctx req since) as (_ & Hc & Hs & _).
  destruct (runTask_wellFormed o ctx req since) as [[Hcut Hz] | (He & Hd & Hid & Hten & _)].
  - rewrite Hcut in *. rewrite orb_true_r in Hc. done.
  - rewrite He, Hd in *. simpl. split_and!; try done.
    destruct (runTask_stores o ctx req since He Hd) as [pre Hpre]. by eexists _, _.
Qed.

Lemma task_ends_as_its_handler_does_witness :
  exits withQuitter Background quitRequest 0 = true ∧
  dies withNilError Background nilErrorRequest 0 = true.
Proof.
  split.
  - apply (proj1 (task_ends_as_its_handler_does withQuitter Background quitRequest 0)).
    split; [reflexivity|]. exists quitter. split; reflexivity.
  - apply (proj1 (proj2 (task_ends_as_its_handler_does
                           withNilError Background nilErrorRequest 0))).
    split; [reflexivity|]. exists nilError, None. split_and!; try reflexivity.
    vm_compute. discriminate.
Defined.

(** ** More on limits and deadlines *)

(** X28.  Of an oversized batch nothing succeeds: filtering its responses
    for successes gives nothing, and filtering them for status 413 gives
    them all. *)
Theorem oversized_batch_has_no_success
    (o : Orchestrator) (ctx : Context) (now : Z) (batch : list SubRequest)
    (sched : list Action) (R : list Response) (tr : list (nat * (Z * Event))) :
  0 < maxBatchSize o →
  maxBatchSize o < Z.of_nat (length batch) →
  ExecuteBatch o ctx now batch sched = Some (R, tr) →
  FilterSuccess R = [] ∧ FilterByStatus R 413 = R ∧
  ∀ t, List.map rID (FilterByTenant R t)
       = List.map ID (List.filter (fun req => String.eqb (TenantID req) t) batch).
Proof.
  intros Hpos Hover Hexec. unfold ExecuteBatch, tooLarge in Hexec.
  rewrite (proj2 (Z.ltb_lt _ _) Hpos), (proj2 (Z.ltb_lt _ _) Hover) in Hexec.
  simpl in Hexec. inversion Hexec; subst; clear Hexec.
  unfold FilterSuccess, FilterByStatus, FilterByTenant.
  assert (Hshape : ∀ g : SubRequest → Response,
            (∀ req, rStatus (g req) = 413 ∧ rID (g req) = ID req
                    ∧ rTenantID (g req) = TenantID req) →
            List.filter (fun resp => (200 <=? rStatus resp) && (rStatus resp <? 300))
              (List.map g batch) = [] ∧
            List.filter (fun resp => rStatus resp =? 413) (List.map g batch)
              = List.map g batch ∧
            ∀ t, List.map rID (List.filter (fun resp => String.eqb (rTenantID resp) t)
                                 (List.map g batch))
                 = List.map ID (List.filter (fun req => String.eqb (TenantID req) t) batch)).
  { intros g Hg. clear Hover. induction batch as [|req rest IH]; simpl; [done|].
    destruct (Hg req) as (Hst & Hid & Hten). destruct IH as (IH1 & IH2 & IH3).
    rewrite Hst, Hten. simpl. rewrite IH1, IH2. split_and!; try done.
    intros t. destruct (String.eqb (TenantID req) t); simpl; by rewrite ?Hid, IH3. }
  apply (Hshape (batchTooLarge o batch)). intros req. done.
Qed.

Lemma oversized_batch_has_no_success_witness :
  ∃ R, ExecuteBatch limitTen Background 0 twenty [] = Some (R, []) ∧
       FilterSuccess R = [] ∧ length (FilterByStatus R 413) = 20%nat.
Proof.
  destruct (ExecuteBatch limitTen Background 0 twenty []) as [[R tr]|] eqn:E;
    [|vm_compute in E; discriminate].
  destruct (oversized_batch_has_no_success limitTen Background 0 twenty [] R tr
              eq_refl eq_refl E) as (Hnone & Hall & _).
  assert (tr = []) as -> by (vm_compute in E; congruence).
  exists R. split; [reflexivity|]. split; [exact Hnone|].
  rewrite Hall. vm_compute in E. inversion E; subst. reflexivity.
Defined.

(** X29.  The caller's deadline applies to every task: under a context
    with a deadline that is never cancelled, a valid request for a
    registered recipe whose handler is over at or after that deadline,
    and did not end the goroutine, is answered 504 / TIMEOUT, however
    long the timeout of the recipe. *)
Theorem callers_deadline_applies
    (o : Orchestrator) (ctx : Context) (req : SubRequest) (since : Z) (h : Handler)
    (p : Z) :
  invalid req = false →
  registry o !! Recipe req = Some h →
  ctx_deadline ctx = Some p →
  ctx_cancel_at ctx = None →
  let tctx := taskContext o ctx req since in
  let elapsed := Z.of_N (run_elapsed (h tctx (Payload req) since)) in
  run_outcome (h tctx (Payload req) since) ≠ Exited →
  p ≤ since + elapsed →
  let resp := fst (runTask o ctx req since) in
  ctx_deadline tctx = Some (Z.min p (since + resolveTimeout o req)) ∧
  rID resp = ID req ∧ rStatus resp = 504 ∧ rData resp = None ∧
  rError resp = Some (mkError "TIMEOUT" "recipe execution timed out" None) ∧
  rTenantID resp = TenantID req.
Proof.
  intros Hinv Hreg Hp Hc tctx elapsed Hout Hlate resp. unfold resp. clear resp.
  assert (Hd : ctx_deadline tctx = Some (Z.min p (since + resolveTimeout o req))).
  { unfold tctx, taskContext, context_WithTimeout; simpl. by rewrite Hp. }
  split; [done|].
  rewrite (runTask_registered _ _ _ _ h) by done. cbv zeta. fold tctx. fold elapsed.
  assert (Hdead : ctxErr tctx (since + elapsed) = Some DeadlineExceeded).
  { unfold ctxErr, reached. rewrite Hd.
    replace (ctx_cancel_at tctx) with (@None Z) by (symmetry; exact Hc).
    destruct (Z.leb_spec (Z.min p (since + resolveTimeout o req)) (since + elapsed));
      [done|lia]. }
  rewrite Hdead.
  destruct (run_outcome _) as [data [[msg|]|]|r|]; try done.
Qed.

(** The batch context expires after 50 ms; the recipe may take 30 s. *)
Lemma callers_deadline_applies_witness :
  let o := mkOrchestrator {[ "slow" := slow ]}
             {[ "slow" := mkRecipeOption (30 * Second) ]} (5 * Second) 0 0 in
  rStatus (fst (runTask o (mkContext [] (Some (50 * Millisecond)) None)
                  (mkSubRequest "1" "tenant-a" "slow" None) 0)) = 504.
Proof.
  intros o.
  destruct (callers_deadline_applies o (mkContext [] (Some (50 * Millisecond)) None)
              (mkSubRequest "1" "tenant-a" "slow" None) 0 slow (50 * Millisecond))
    as (_ & _ & Hst & _).
  - reflexivity.
  - reflexivity.
  - reflexivity.
  - reflexivity.
  - discriminate.
  - vm_compute. discriminate.
  - exact Hst.
Defined.
